(** * Port claims of the node controller

    A shallow embedding of [go-controller/pkg/node/port_claim.go]: the
    [portClaimWatcher] ledger ([open] / [close]) and the service handlers
    that drive it ([addServicePortClaim], [deleteServicePortClaim],
    [updateServicePortClaim]).

    Conventions.
    - Go strings are [string]; [int32] and [int] ports are [Z] (the code only
      compares and stores them, [int(port)] is the identity on the values).
    - A Go slice is [slice A := option (list A)]: [None] is the nil slice.
      [len] and [range] do not tell nil from empty, [reflect.DeepEqual] does.
    - A Go [error] is [option error]: [None] is nil.  Every [fmt.Errorf]
      call site of the code is one constructor of [error] that carries the
      formatted arguments.
    - The operating system (the [portOpener] and the [Close] method of the
      sockets it returns) and the event recorder are outside the program.
      The OS is an abstract state with two transition functions; every call
      made to it, and every event sent to the recorder, is appended to a
      trace, so that "no OS action" is a statement about the trace. *)

From stdpp Require Import gmap strings list fin_maps.
From Stdlib Require Import ZArith Ascii.

Set Default Proof Using "Type".

(** ** Go slices *)

Definition slice (A : Type) : Type := option (list A).

(** The elements visited by [for _, x := range s]. *)
Definition elems {A} (s : slice A) : list A := default [] s.

(** [len(s)] *)
Definition len {A} (s : slice A) : nat := length (elems s).

(** [reflect.DeepEqual] on the pointer-free values used here: structural
    equality, where a nil slice differs from an empty one. *)
Definition DeepEqual {A} `{EqDecision A} (x y : A) : bool := bool_decide (x = y).

(** ** Errors *)

Inductive error : Type :=
  (* returned by the operating system (portOpener.OpenLocalPort, Closeable.Close) *)
  | ErrOS (msg : string)
  (* utilnet.NewLocalPort *)
  | ErrUnsupportedProtocol (protocol : string)
  | ErrInvalidIPFamily (family : string)
  | ErrInvalidIP (ip : string)
  | ErrFamilyMismatch (ip family : string)
  (* util.ValidatePort *)
  | ErrInvalidPortNumber (port : Z)
  | ErrInvalidProtocol (protocol : string)
  (* handlePort: "invalid service port %s, err: %v" *)
  | ErrInvalidServicePort (svcName : string) (err : error)
  (* open: "unknown protocol %q" *)
  | ErrUnknownProtocol (protocol : string)
  (* open: "error try to open socket for svc: %s/%s on port: %v again" *)
  | ErrOpenAgain (ns name : string) (port : Z)
  (* close: "error localPort creation for svc: %s/%s on port: %v, err: %v" *)
  | ErrLocalPortCreation (ns name : string) (port : Z) (err : error)
  (* close: "error closing socket for svc: %s/%s on port: %v, err: %v" *)
  | ErrClosing (ns name : string) (port : Z) (err : error)
  (* close: "... port was never opened...?" *)
  | ErrNeverOpened (ns name : string) (port : Z).

(** The error kinds of the specification's taxonomy. *)
Definition isDuplicateClaim (e : option error) : Prop :=
  ∃ ns name port, e = Some (ErrOpenAgain ns name port).
Definition isUntrackedRelease (e : option error) : Prop :=
  ∃ ns name port, e = Some (ErrNeverOpened ns name port).
Definition isReleaseFailure (e : option error) : Prop :=
  ∃ ns name port err, e = Some (ErrClosing ns name port err).

(** ** k8s.io/api/core/v1 *)

Module kapi.

Definition ProtocolTCP : string := "TCP".
Definition ProtocolUDP : string := "UDP".
Definition ProtocolSCTP : string := "SCTP".

Definition ServiceTypeClusterIP : string := "ClusterIP".
Definition ServiceTypeNodePort : string := "NodePort".
Definition ServiceTypeLoadBalancer : string := "LoadBalancer".
Definition ServiceTypeExternalName : string := "ExternalName".

(** [intstr.IntOrString] *)
Record IntOrString : Type := {
  IntOrStringType : Z;
  IntVal : Z;
  StrVal : string;
}.

Record ServicePort : Type := {
  PortName : string;               (* Name *)
  PortProtocol : string;           (* Protocol *)
  AppProtocol : option string;     (* *string *)
  Port : Z;
  TargetPort : IntOrString;
  NodePort : Z;
}.

(** The fields of [ServiceSpec] that the port claim code reads. *)
Record ServiceSpec : Type := {
  Ports : slice ServicePort;
  ExternalIPs : slice string;
  Type_ : string;
}.

Record Service : Type := {
  Namespace : string;
  Name : string;
  Spec : ServiceSpec;
}.

#[global] Instance IntOrString_eq_dec : EqDecision IntOrString.
Proof. solve_decision. Defined.
#[global] Instance ServicePort_eq_dec : EqDecision ServicePort.
Proof. solve_decision. Defined.

End kapi.

(** ** k8s.io/utils/net *)

Module utilnet.

Definition TCP : string := "TCP".
Definition UDP : string := "UDP".

Definition IPFamilyUnknown : string := "".
Definition IPv4 : string := "4".
Definition IPv6 : string := "6".

(** What parsing an address tells [NewLocalPort]: its family. *)
Inductive IPKind : Type := IsIPv4 | IsIPv6.

Record LocalPort : Type := {
  Description : string;
  IP : string;
  IPFamily : string;
  Port : Z;
  Protocol : string;
}.

#[global] Instance LocalPort_eq_dec : EqDecision LocalPort.
Proof. solve_decision. Defined.

#[global] Instance LocalPort_countable : Countable LocalPort.
Proof.
  refine (inj_countable'
    (λ lp, (Description lp, IP lp, IPFamily lp, Port lp, Protocol lp))
    (λ t, let '(d, i, f, p, pr) := t in
          {| Description := d; IP := i; IPFamily := f; Port := p; Protocol := pr |}) _).
  by intros [].
Defined.

(** [NewLocalPort] of the library k8s.io/utils/net: it checks the protocol,
    the family, and that a non-empty address parses and agrees with the
    family.  The address parser is the parameter [ParseIP] ([None]: not an
    address); with a parser that accepts every string, building the identity
    of a TCP or UDP claim never fails, as in §4.2 of the specification. *)
Definition NewLocalPort (ParseIP : string → option IPKind)
    (desc ip ipFamily : string) (port : Z) (protocol : string)
    : LocalPort + error :=
  if bool_decide (protocol ≠ TCP) && bool_decide (protocol ≠ UDP) then
    inr (ErrUnsupportedProtocol protocol)
  else if bool_decide (ipFamily ≠ IPFamilyUnknown) && bool_decide (ipFamily ≠ IPv4)
          && bool_decide (ipFamily ≠ IPv6) then
    inr (ErrInvalidIPFamily ipFamily)
  else
    let lp := {| Description := desc; IP := ip; IPFamily := ipFamily;
                 Port := port; Protocol := protocol |} in
    if bool_decide (ip ≠ "") then
      match ParseIP ip with
      | None => inr (ErrInvalidIP ip)
      | Some kind =>
          match kind with
          | IsIPv6 => if bool_decide (ipFamily = IPv4)
                      then inr (ErrFamilyMismatch ip ipFamily) else inl lp
          | IsIPv4 => if bool_decide (ipFamily = IPv6)
                      then inr (ErrFamilyMismatch ip ipFamily) else inl lp
          end
      end
    else inl lp.

End utilnet.

(** ** go-controller/pkg/util *)

Module util.

(** Modelled from the spec: [util.ValidatePort] is defined in package util,
    outside port_claim.go.  The specification has a port in 1..65535 and a
    protocol among TCP, UDP and SCTP ("port range vs. protocol" validation,
    error kind InvalidPort). *)
Definition ValidatePort (proto : string) (port : Z) : option error :=
  if bool_decide (port ≤ 0)%Z || bool_decide (65535 < port)%Z then
    Some (ErrInvalidPortNumber port)
  else if bool_decide (proto = kapi.ProtocolTCP) || bool_decide (proto = kapi.ProtocolUDP)
          || bool_decide (proto = kapi.ProtocolSCTP) then None
  else Some (ErrInvalidProtocol proto).

(** Modelled from the spec: [util.ServiceTypeHasNodePort] is defined in
    package util, outside port_claim.go.  "The Service exposes NodePort": its
    type is NodePort, or LoadBalancer, which allocates node ports as well. *)
Definition ServiceTypeHasNodePort (svc : kapi.Service) : bool :=
  bool_decide (kapi.Type_ (kapi.Spec svc) = kapi.ServiceTypeNodePort)
  || bool_decide (kapi.Type_ (kapi.Spec svc) = kapi.ServiceTypeLoadBalancer).

End util.

(** ** The port claim watcher *)

(** [net.IPNet]: address and mask bytes.  The code never reads the values of
    [localAddrSet], only whether a key is present. *)
Definition IPNet : Type := (list Z * list Z)%type.

(** Constants for valid LocalHost descriptions. *)
Definition nodePortDescr : string := "nodePort for".
Definition externalPortDescr : string := "externalIP for".

(** [types.NamespacedName.String] *)
Definition NamespacedName_String (ns name : string) : string :=
  ns +:+ "/" +:+ name.

(** LocalPorts allows to add an arbitrary description, which can be used to
    distinguish LocalPorts instances having the same networking parameters but
    created for different services:
      "nodePort for namespace/name[:portName]" for NodePort services,
      "externalIP for namespace/name[:portName]" for services with External IPs. *)
Definition getDescription (portName : string) (svc : kapi.Service) (nodePort : bool)
    : string :=
  let svcName := NamespacedName_String (kapi.Namespace svc) (kapi.Name svc) in
  let prefix := if nodePort then nodePortDescr else externalPortDescr in
  if bool_decide (String.length portName = 0) then
    prefix +:+ " " +:+ svcName
  else
    prefix +:+ " " +:+ svcName +:+ ":" +:+ portName.

(** [errors = append(errors, err)] guarded by [err != nil]. *)
Definition appendErr (errors : list error) (r : option error) : list error :=
  match r with
  | Some err => errors ++ [err]
  | None => errors
  end.

(** ** The data model of the specification (§3, §4.1) *)

Record ServiceRef : Type := {
  refNamespace : string;
  refName : string;
}.

Record PortClaim : Type := {
  description : string;
  address : string;
  port : Z;
  protocol : string;
  owner : ServiceRef;
}.

(** ClaimIdentity, as the ledger stores it: the [utilnet.LocalPort] that
    [open] and [close] build from (description, address, port, protocol),
    always with the unknown IP family. *)
Definition identity (desc ip : string) (port : Z) (protocol : string)
    : utilnet.LocalPort :=
  {| utilnet.Description := desc; utilnet.IP := ip; utilnet.IPFamily := "";
     utilnet.Port := port; utilnet.Protocol := protocol |}.

Definition serviceRef (svc : kapi.Service) : ServiceRef :=
  {| refNamespace := kapi.Namespace svc; refName := kapi.Name svc |}.

(** "<origin> for <ns>/<name>[:<portName>]", the suffix only for a named port. *)
Definition spec_description (origin : string) (svc : kapi.Service) (portName : string)
    : string :=
  origin +:+ " for " +:+ kapi.Namespace svc +:+ "/" +:+ kapi.Name svc
  +:+ (if bool_decide (portName = "") then "" else ":" +:+ portName).

(** The claims of one declared port (§4.1): one at the wildcard address and
    the nodePort if the Service exposes NodePort, then one per external IP at
    the port. *)
Definition spec_port_claims (svc : kapi.Service) (svcPort : kapi.ServicePort)
    : list PortClaim :=
  (if util.ServiceTypeHasNodePort svc then
     [ {| description := spec_description "nodePort" svc (kapi.PortName svcPort);
          address := "";
          port := kapi.NodePort svcPort;
          protocol := kapi.PortProtocol svcPort;
          owner := serviceRef svc |} ]
   else [])
  ++ map (λ externalIP,
       {| description := spec_description "externalIP" svc (kapi.PortName svcPort);
          address := externalIP;
          port := kapi.Port svcPort;
          protocol := kapi.PortProtocol svcPort;
          owner := serviceRef svc |})
       (elems (kapi.ExternalIPs (kapi.Spec svc))).

(** The Claim Extractor of §4.1, written from the specification's words. *)
Definition Extractor (svc : kapi.Service) : list PortClaim :=
  if negb (util.ServiceTypeHasNodePort svc)
     && bool_decide (elems (kapi.ExternalIPs (kapi.Spec svc)) = [])
  then []
  else flat_map (spec_port_claims svc) (elems (kapi.Ports (kapi.Spec svc))).

(** A Service object that carries an owner reference and nothing else. *)
Definition ownerService (r : ServiceRef) : kapi.Service :=
  {| kapi.Namespace := refNamespace r; kapi.Name := refName r;
     kapi.Spec := {| kapi.Ports := None; kapi.ExternalIPs := None; kapi.Type_ := "" |} |}.

(** ** Test doubles for the operating system

    Sockets are descriptor numbers and the OS state is the next free one. *)

Module fake.

Definition OpenLocalPort (lp : utilnet.LocalPort) (next : nat)
    : (nat + string) * nat :=
  (inl next, S next).

Definition OpenLocalPort_busy (lp : utilnet.LocalPort) (next : nat)
    : (nat + string) * nat :=
  (inr "bind: address already in use", next).

Definition CloseSocket (c : nat) (next : nat) : option string * nat :=
  (None, next).

Definition CloseSocket_broken (c : nat) (next : nat) : option string * nat :=
  (Some "close: bad file descriptor", next).

(** A crude address parser: dotted digits are IPv4, anything with a colon
    is IPv6, the rest is no address. *)
Definition ParseIP (s : string) : option utilnet.IPKind :=
  let cs := String.list_ascii_of_string s in
  if existsb (λ c, bool_decide (c = ":"%char)) cs then Some utilnet.IsIPv6
  else if bool_decide (cs ≠ [])
          && forallb (λ c, bool_decide (c = "."%char) || bool_decide (48 ≤ nat_of_ascii c ≤ 57)) cs
  then Some utilnet.IsIPv4
  else None.

Definition nodeAddrs : gmap string IPNet :=
  {[ "10.0.0.1" := ([10; 0; 0; 1], [255; 255; 255; 0])%Z ]}.

(** Service ns1/svcA of type NodePort with one unnamed TCP port. *)
Definition port8080 : kapi.ServicePort :=
  {| kapi.PortName := ""; kapi.PortProtocol := kapi.ProtocolTCP;
     kapi.AppProtocol := None; kapi.Port := 8080;
     kapi.TargetPort := {| kapi.IntOrStringType := 0; kapi.IntVal := 8080;
                           kapi.StrVal := "" |};
     kapi.NodePort := 30080 |}.

Definition svcA : kapi.Service :=
  {| kapi.Namespace := "ns1"; kapi.Name := "svcA";
     kapi.Spec := {| kapi.Ports := Some [port8080]; kapi.ExternalIPs := None;
                     kapi.Type_ := kapi.ServiceTypeNodePort |} |}.

(** The same Service after its type was changed to ClusterIP: the ports,
    with their nodePort values, and the external IPs are as before. *)
Definition svcA_clusterIP : kapi.Service :=
  {| kapi.Namespace := "ns1"; kapi.Name := "svcA";
     kapi.Spec := {| kapi.Ports := Some [port8080]; kapi.ExternalIPs := None;
                     kapi.Type_ := kapi.ServiceTypeClusterIP |} |}.

(** The same Service with an external IP of the node added. *)
Definition svcA_external : kapi.Service :=
  {| kapi.Namespace := "ns1"; kapi.Name := "svcA";
     kapi.Spec := {| kapi.Ports := Some [port8080];
                     kapi.ExternalIPs := Some ["10.0.0.1"];
                     kapi.Type_ := kapi.ServiceTypeNodePort |} |}.

End fake.

(** ** go-controller/pkg/ovn: the namespaces of the tests

    The helpers of [namespace_test.go] that build the Namespace objects of
    the tests. *)

Module ovn.

(** The fields of [metav1.ObjectMeta] that the helpers set. *)
Record ObjectMeta : Type := {
  UID : string;
  Name : string;
  Labels : gmap string string;
  Annotations : gmap string string;
}.

(** [v1.Namespace]; its Spec and Status are the empty structs. *)
Record Namespace : Type := {
  NamespaceMeta : ObjectMeta;
}.

(** [additionalLabels] may be the nil map, which [range] takes as empty.
    The loop assigns each of its entries once, in an order that Go leaves
    open. *)
Definition newNamespaceMeta (namespace : string) (additionalLabels : gmap string string)
    : ObjectMeta :=
  let labels : gmap string string := {[ "name" := namespace ]} in
  let labels := map_fold (λ k v labels, <[k := v]> labels) labels additionalLabels in
  {| UID := namespace; Name := namespace; Labels := labels; Annotations := ∅ |}.

Definition newNamespaceWithLabels (namespace : string)
    (additionalLabels : gmap string string) : Namespace :=
  {| NamespaceMeta := newNamespaceMeta namespace additionalLabels |}.

Definition newNamespace (namespace : string) : Namespace :=
  {| NamespaceMeta := newNamespaceMeta namespace ∅ |}.

End ovn.

Section node.

(** The operating system: the type of its states, the type of the sockets
    ([utilnet.Closeable]) it hands out, [portOpener.OpenLocalPort], the
    [Close] method of a socket, and the address parser.  An error of the OS
    is its message; the program sees it as [ErrOS]. *)
Context {OS Closeable : Type}.
Variable OpenLocalPort : utilnet.LocalPort → OS → (Closeable + string) * OS.
Variable CloseSocket : Closeable → OS → option string * OS.
Variable ParseIP : string → option utilnet.IPKind.

(** [activeSocketsLock] has no field here: [open] and [close] below are
    the sequential behaviour of one call.  The recorder is the trace. *)
Record portClaimWatcher : Type := {
  localAddrSet : gmap string IPNet;
  portsMap : gmap utilnet.LocalPort Closeable;
}.

Inductive effect : Type :=
  | OsOpen (lp : utilnet.LocalPort)          (* portOpener.OpenLocalPort(lp) *)
  | OsClose (c : Closeable)                  (* c.Close() *)
  | Eventf (ns name : string) (port : Z) (err : error).  (* recorder.Eventf *)

Record world : Type := {
  watcher : portClaimWatcher;   (* the watcher that initPortClaimWatcher creates *)
  os : OS;
  trace : list effect;
}.

Definition newPortClaimWatcher (addrs : gmap string IPNet) : portClaimWatcher :=
  {| localAddrSet := addrs; portsMap := ∅ |}.

(** The world after [initPortClaimWatcher]. *)
Definition initial (addrs : gmap string IPNet) (os0 : OS) : world :=
  {| watcher := newPortClaimWatcher addrs; os := os0; trace := [] |}.

(** *** A state monad over the world *)

Definition M (A : Type) : Type := world → A * world.

#[local] Instance M_ret : MRet M := λ A a w, (a, w).
#[local] Instance M_bind : MBind M :=
  λ A B k m w, let '(a, w') := m w in k a w'.

Definition ret {A} (a : A) : M A := mret a.

Definition getWatcher : M portClaimWatcher := λ w, (watcher w, w).

Definition setPortsMap (m : gmap utilnet.LocalPort Closeable) : M unit :=
  λ w, (tt, {| watcher := {| localAddrSet := localAddrSet (watcher w);
                             portsMap := m |};
               os := os w; trace := trace w |}).

Definition emit (e : effect) : M unit :=
  λ w, (tt, {| watcher := watcher w; os := os w; trace := trace w ++ [e] |}).

Definition osOpenLocalPort (lp : utilnet.LocalPort) : M (Closeable + error) :=
  λ w, let '(r, os') := OpenLocalPort lp (os w) in
       (match r with inl c => inl c | inr msg => inr (ErrOS msg) end,
        {| watcher := watcher w; os := os'; trace := trace w ++ [OsOpen lp] |}).

Definition osClose (c : Closeable) : M (option error) :=
  λ w, let '(r, os') := CloseSocket c (os w) in
       (ErrOS <$> r,
        {| watcher := watcher w; os := os'; trace := trace w ++ [OsClose c] |}).

Fixpoint foldM {A B} (f : B → A → M B) (l : list A) (b : B) : M B :=
  match l with
  | [] => ret b
  | a :: l' => b' ← f b a; foldM f l' b'
  end.

(** *** The ledger *)

Definition emitPortClaimEvent (svc : kapi.Service) (port : Z) (err : error) : M unit :=
  emit (Eventf (kapi.Namespace svc) (kapi.Name svc) port err).

Definition open (desc ip : string) (port : Z) (protocol : string)
    (svc : kapi.Service) : M (option error) :=
  p ← getWatcher;
  if bool_decide (ip ≠ "") && bool_decide (localAddrSet p !! ip = None) then
    ret None
  else
    let fail (portError : error) : M (option error) :=
      emitPortClaimEvent svc port portError;; ret (Some portError) in
    if bool_decide (protocol = kapi.ProtocolTCP) || bool_decide (protocol = kapi.ProtocolUDP)
    then
      match utilnet.NewLocalPort ParseIP desc ip "" port protocol with
      | inr portError => fail portError
      | inl localPort =>
          (* under activeSocketsLock *)
          p ← getWatcher;
          match portsMap p !! localPort with
          | Some _ =>
              ret (Some (ErrOpenAgain (kapi.Namespace svc) (kapi.Name svc) port))
          | None =>
              r ← osOpenLocalPort localPort;
              match r with
              | inr err => emitPortClaimEvent svc port err;; ret (Some err)
              | inl closeable =>
                  p ← getWatcher;
                  setPortsMap (<[localPort := closeable]> (portsMap p));;
                  ret None
              end
          end
      end
    else if bool_decide (protocol = kapi.ProtocolSCTP) then
      (* Do not open ports for SCTP *)
      ret None
    else fail (ErrUnknownProtocol protocol).

Definition close (desc ip : string) (port : Z) (protocol : string)
    (svc : kapi.Service) : M (option error) :=
  if bool_decide (protocol ≠ kapi.ProtocolTCP) && bool_decide (protocol ≠ kapi.ProtocolUDP)
  then ret None
  else
    p ← getWatcher;
    if bool_decide (ip ≠ "") && bool_decide (localAddrSet p !! ip = None) then
      ret None
    else
      match utilnet.NewLocalPort ParseIP desc ip "" port protocol with
      | inr err =>
          ret (Some (ErrLocalPortCreation (kapi.Namespace svc) (kapi.Name svc) port err))
      | inl localPort =>
          (* under activeSocketsLock *)
          p ← getWatcher;
          match portsMap p !! localPort with
          | Some closeable =>
              r ← osClose closeable;
              match r with
              | Some err =>
                  ret (Some (ErrClosing (kapi.Namespace svc) (kapi.Name svc) port err))
              | None =>
                  p ← getWatcher;
                  setPortsMap (delete localPort (portsMap p));;
                  ret None
              end
          | None =>
              ret (Some (ErrNeverOpened (kapi.Namespace svc) (kapi.Name svc) port))
          end
      end.


(** *** The service handlers *)

Definition handler : Type :=
  string → string → Z → string → kapi.Service → M (option error).

Definition handlePort (desc : string) (svc : kapi.Service) (ip : string) (port : Z)
    (protocol : string) (h : handler) : M (option error) :=
  match util.ValidatePort protocol port with
  | Some err => ret (Some (ErrInvalidServicePort (kapi.Name svc) err))
  | None => h desc ip port protocol svc
  end.

Definition handleService (svc : kapi.Service) (h : handler) : M (list error) :=
  let errors : list error := [] in
  if negb (util.ServiceTypeHasNodePort svc)
     && bool_decide (len (kapi.ExternalIPs (kapi.Spec svc)) = 0)
  then ret errors
  else
    foldM (λ errors svcPort,
        errors ←
          (if util.ServiceTypeHasNodePort svc then
             r ← handlePort (getDescription (kapi.PortName svcPort) svc true) svc ""
                   (kapi.NodePort svcPort) (kapi.PortProtocol svcPort) h;
             ret (appendErr errors r)
           else ret errors);
        foldM (λ errors externalIP,
            r ← handlePort (getDescription (kapi.PortName svcPort) svc false) svc
                  externalIP (kapi.Port svcPort) (kapi.PortProtocol svcPort) h;
            ret (appendErr errors r))
          (elems (kapi.ExternalIPs (kapi.Spec svc))) errors)
      (elems (kapi.Ports (kapi.Spec svc))) errors.

(** The interface that the service handlers call, and the package variable
    [portHandler] that holds its implementation. *)
Class localPortHandler : Type := {
  lph_open : handler;
  lph_close : handler;
}.

(** [newPortClaimWatcher] returns the watcher as a [localPortHandler]. *)
Definition portClaimWatcher_handler : localPortHandler :=
  {| lph_open := open; lph_close := close |}.

Section handlers.

Variable portHandler : localPortHandler.

Definition addServicePortClaim (svc : kapi.Service) : M (list error) :=
  handleService svc lph_open.

Definition deleteServicePortClaim (svc : kapi.Service) : M (list error) :=
  handleService svc lph_close.

(** The result is the returned [[]error]; the callers only range over it,
    so the nil slice of the first branch is the empty list. *)
Definition updateServicePortClaim (oldSvc newSvc : kapi.Service) : M (list error) :=
  if DeepEqual (kapi.ExternalIPs (kapi.Spec oldSvc)) (kapi.ExternalIPs (kapi.Spec newSvc))
     && DeepEqual (kapi.Ports (kapi.Spec oldSvc)) (kapi.Ports (kapi.Spec newSvc))
  then ret []
  else
    let errors : list error := [] in
    deleted ← deleteServicePortClaim oldSvc;
    let errors := errors ++ deleted in
    added ← addServicePortClaim newSvc;
    let errors := errors ++ added in
    ret errors.

End handlers.

(** *** The reconciliation driver of the specification (§4.3) *)

Definition Ledger_open (c : PortClaim) : M (option error) :=
  open (description c) (address c) (port c) (protocol c) (ownerService (owner c)).

Definition Ledger_close (c : PortClaim) : M (option error) :=
  close (description c) (address c) (port c) (protocol c) (ownerService (owner c)).

(** Validation comes before the ledger; an invalid claim is an error of the
    batch and the ledger is not called for it. *)
Definition spec_attempt (op : PortClaim → M (option error)) (c : PortClaim)
    : M (option error) :=
  match util.ValidatePort (protocol c) (port c) with
  | Some err => ret (Some (ErrInvalidServicePort (refName (owner c)) err))
  | None => op c
  end.

(** Every claim is attempted, in order, and every error is collected. *)
Fixpoint spec_batch (op : PortClaim → M (option error)) (claims : list PortClaim)
    : M (list error) :=
  match claims with
  | [] => ret []
  | c :: claims' =>
      r ← spec_attempt op c;
      errs ← spec_batch op claims';
      ret (option_list r ++ errs)
  end.

Definition spec_Added (svc : kapi.Service) : M (list error) :=
  spec_batch Ledger_open (Extractor svc).

Definition spec_Deleted (svc : kapi.Service) : M (list error) :=
  spec_batch Ledger_close (Extractor svc).

(** The slow path of Updated: a full Deleted(old), then a full Added(new). *)
Definition spec_Updated_full (oldSvc newSvc : kapi.Service) : M (list error) :=
  closed ← spec_Deleted oldSvc;
  opened ← spec_Added newSvc;
  ret (closed ++ opened).

(** *** Reachable worlds and the ledger invariant *)

(** An identity that [open] can have stored in a watcher [p]: the local
    port that [NewLocalPort] returns for its own fields, at an address that
    passes the node-local filter. *)
Definition storable (p : portClaimWatcher) (lp : utilnet.LocalPort) : Prop :=
  utilnet.NewLocalPort ParseIP (utilnet.Description lp) (utilnet.IP lp) ""
    (utilnet.Port lp) (utilnet.Protocol lp) = inl lp
  ∧ (utilnet.IP lp = "" ∨ is_Some (localAddrSet p !! utilnet.IP lp)).

Definition ledger_ok (w : world) : Prop :=
  ∀ lp c, portsMap (watcher w) !! lp = Some c → storable (watcher w) lp.

(** The worlds of a run: the watcher starts empty, over any address set;
    then [open] and [close] are called with any arguments, and the OS may
    change by itself in between. *)
Inductive reachable : world → Prop :=
  | reach_initial addrs os0 :
      reachable (initial addrs os0)
  | reach_open w desc ip port protocol svc :
      reachable w → reachable (open desc ip port protocol svc w).2
  | reach_close w desc ip port protocol svc :
      reachable w → reachable (close desc ip port protocol svc w).2
  | reach_os w os' :
      reachable w →
      reachable {| watcher := watcher w; os := os'; trace := trace w |}.

(** A claim that the ledger materialises: TCP or UDP, at the wildcard
    address or at an address of the node (a key of [localAddrSet] that is
    an IP address). *)
Definition materialised (p : portClaimWatcher) (ip protocol : string) : Prop :=
  (protocol = kapi.ProtocolTCP ∨ protocol = kapi.ProtocolUDP)
  ∧ (ip = "" ∨ (is_Some (localAddrSet p !! ip) ∧ is_Some (ParseIP ip))).


#[local] Instance materialised_dec p ip protocol :
  Decision (materialised p ip protocol).
Proof. unfold materialised. apply _. Defined.

(** *** Calls of [open] one after the other

    The lock of the watcher makes the calls of [open] take place one at a
    time; this is a run of the calls in the order of the list. *)

Record openCall : Type := {
  callDesc : string;
  callIP : string;
  callPort : Z;
  callProtocol : string;
  callSvc : kapi.Service;
}.

Definition callIdentity (c : openCall) : utilnet.LocalPort :=
  identity (callDesc c) (callIP c) (callPort c) (callProtocol c).

Fixpoint open_each (calls : list openCall) : M (list (option error)) :=
  match calls with
  | [] => ret []
  | c :: calls' =>
      r ← open (callDesc c) (callIP c) (callPort c) (callProtocol c) (callSvc c);
      rs ← open_each calls';
      ret (r :: rs)
  end.

(** *** The outcomes of a ledger call

    The paths through [open] and through [close], each with the result and
    the world it ends in. *)

Definition passesFilter (p : portClaimWatcher) (ip : string) : Prop :=
  ip = "" ∨ is_Some (localAddrSet p !! ip).

Inductive open_outcome (desc ip : string) (port : Z) (protocol : string)
    (svc : kapi.Service) (w : world) : option error → world → Prop :=
  | oo_foreign :
      ip ≠ "" → localAddrSet (watcher w) !! ip = None →
      open_outcome desc ip port protocol svc w None w
  | oo_sctp :
      passesFilter (watcher w) ip → protocol = kapi.ProtocolSCTP →
      open_outcome desc ip port protocol svc w None w
  | oo_unknown_protocol :
      passesFilter (watcher w) ip →
      protocol ≠ kapi.ProtocolTCP → protocol ≠ kapi.ProtocolUDP →
      protocol ≠ kapi.ProtocolSCTP →
      open_outcome desc ip port protocol svc w
        (Some (ErrUnknownProtocol protocol))
        {| watcher := watcher w; os := os w;
           trace := trace w ++ [Eventf (kapi.Namespace svc) (kapi.Name svc) port
                                  (ErrUnknownProtocol protocol)] |}
  | oo_no_local_port portError :
      passesFilter (watcher w) ip →
      protocol = kapi.ProtocolTCP ∨ protocol = kapi.ProtocolUDP →
      utilnet.NewLocalPort ParseIP desc ip "" port protocol = inr portError →
      open_outcome desc ip port protocol svc w
        (Some portError)
        {| watcher := watcher w; os := os w;
           trace := trace w ++ [Eventf (kapi.Namespace svc) (kapi.Name svc) port
                                  portError] |}
  | oo_duplicate c :
      materialised (watcher w) ip protocol →
      portsMap (watcher w) !! identity desc ip port protocol = Some c →
      open_outcome desc ip port protocol svc w
        (Some (ErrOpenAgain (kapi.Namespace svc) (kapi.Name svc) port)) w
  | oo_refused msg os' :
      materialised (watcher w) ip protocol →
      portsMap (watcher w) !! identity desc ip port protocol = None →
      OpenLocalPort (identity desc ip port protocol) (os w) = (inr msg, os') →
      open_outcome desc ip port protocol svc w
        (Some (ErrOS msg))
        {| watcher := watcher w; os := os';
           trace := (trace w ++ [OsOpen (identity desc ip port protocol)])
                    ++ [Eventf (kapi.Namespace svc) (kapi.Name svc) port (ErrOS msg)] |}
  | oo_reserved c os' :
      materialised (watcher w) ip protocol →
      portsMap (watcher w) !! identity desc ip port protocol = None →
      OpenLocalPort (identity desc ip port protocol) (os w) = (inl c, os') →
      open_outcome desc ip port protocol svc w
        None
        {| watcher := {| localAddrSet := localAddrSet (watcher w);
                         portsMap := <[identity desc ip port protocol := c]>
                                       (portsMap (watcher w)) |};
           os := os';
           trace := trace w ++ [OsOpen (identity desc ip port protocol)] |}.

Inductive close_outcome (desc ip : string) (port : Z) (protocol : string)
    (svc : kapi.Service) (w : world) : option error → world → Prop :=
  | co_other_protocol :
      protocol ≠ kapi.ProtocolTCP → protocol ≠ kapi.ProtocolUDP →
      close_outcome desc ip port protocol svc w None w
  | co_foreign :
      ip ≠ "" → localAddrSet (watcher w) !! ip = None →
      close_outcome desc ip port protocol svc w None w
  | co_no_local_port err :
      passesFilter (watcher w) ip →
      protocol = kapi.ProtocolTCP ∨ protocol = kapi.ProtocolUDP →
      utilnet.NewLocalPort ParseIP desc ip "" port protocol = inr err →
      close_outcome desc ip port protocol svc w
        (Some (ErrLocalPortCreation (kapi.Namespace svc) (kapi.Name svc) port err)) w
  | co_never_opened :
      materialised (watcher w) ip protocol →
      portsMap (watcher w) !! identity desc ip port protocol = None →
      close_outcome desc ip port protocol svc w
        (Some (ErrNeverOpened (kapi.Namespace svc) (kapi.Name svc) port)) w
  | co_close_failed c msg os' :
      materialised (watcher w) ip protocol →
      portsMap (watcher w) !! identity desc ip port protocol = Some c →
      CloseSocket c (os w) = (Some msg, os') →
      close_outcome desc ip port protocol svc w
        (Some (ErrClosing (kapi.Namespace svc) (kapi.Name svc) port (ErrOS msg)))
        {| watcher := watcher w; os := os'; trace := trace w ++ [OsClose c] |}
  | co_released c os' :
      materialised (watcher w) ip protocol →
      portsMap (watcher w) !! identity desc ip port protocol = Some c →
      CloseSocket c (os w) = (None, os') →
      close_outcome desc ip port protocol svc w
        None
        {| watcher := {| localAddrSet := localAddrSet (watcher w);
                         portsMap := delete (identity desc ip port protocol)
                                       (portsMap (watcher w)) |};
           os := os';
           trace := trace w ++ [OsClose c] |}.

(** The events sent to the recorder, among the effects of a trace. *)
Definition isEventf (e : effect) : bool :=
  match e with
  | Eventf _ _ _ _ => true
  | _ => false
  end.

Definition events (tr : list effect) : list effect := List.filter isEventf tr.

(** The calls to the OS, among the effects of a trace. *)
Definition osCalls (tr : list effect) : list effect :=
  List.filter (λ e, negb (isEventf e)) tr.

Definition isOpenAgain (e : error) : bool :=
  match e with
  | ErrOpenAgain _ _ _ => true
  | _ => false
  end.

(** *** Claims of the specification, as the ledger sees them *)

Definition claimIdentity (c : PortClaim) : utilnet.LocalPort :=
  identity (description c) (address c) (port c) (protocol c).

Definition validClaim (c : PortClaim) : Prop :=
  util.ValidatePort (protocol c) (port c) = None.

Definition claimMaterialised (p : portClaimWatcher) (c : PortClaim) : Prop :=
  materialised p (address c) (protocol c).

(** What a batch of [open] can do to the watcher: the address set stays, and
    an identity either keeps what it had or was not held and belongs to a
    valid, materialised claim of the batch. *)
Definition opened_by (claims : list PortClaim) (w w' : world) : Prop :=
  localAddrSet (watcher w') = localAddrSet (watcher w)
  ∧ ∀ lp, portsMap (watcher w') !! lp = portsMap (watcher w) !! lp
          ∨ (portsMap (watcher w) !! lp = None
             ∧ ∃ c, c ∈ claims ∧ lp = claimIdentity c ∧ validClaim c
                    ∧ claimMaterialised (watcher w) c).

(** What a batch of [close] can do to the watcher: the address set stays, and
    an identity either keeps what it had or is an identity of the batch and
    has no entry any more. *)
Definition closed_by (claims : list PortClaim) (w w' : world) : Prop :=
  localAddrSet (watcher w') = localAddrSet (watcher w)
  ∧ ∀ lp, portsMap (watcher w') !! lp = portsMap (watcher w) !! lp
          ∨ (portsMap (watcher w') !! lp = None
             ∧ ∃ c, c ∈ claims ∧ lp = claimIdentity c).

(** *** The handlers registered by [initPortClaimWatcher]

    The watch factory calls [AddFunc], [UpdateFunc] and [DeleteFunc] with the
    Services of the events; each logs the errors of its batch with
    [klog.Errorf], here the lines it returns. *)

Inductive logLine : Type :=
  (* "Error claiming port for service: %s/%s: %v" *)
  | LogClaiming (ns name : string) (err : error)
  (* "Error updating port claim for service: %s/%s: %v" *)
  | LogUpdating (ns name : string) (err : error)
  (* "Error removing port claim for service: %s/%s: %v" *)
  | LogRemoving (ns name : string) (err : error).

Inductive ServiceEvent : Type :=
  | Added (svc : kapi.Service)
  | Updated (oldSvc newSvc : kapi.Service)
  | Deleted (svc : kapi.Service).

Section registered.

Variable portHandler : localPortHandler.

Definition AddFunc (svc : kapi.Service) : M (list logLine) :=
  errors ← addServicePortClaim portHandler svc;
  ret (LogClaiming (kapi.Namespace svc) (kapi.Name svc) <$> errors).

Definition UpdateFunc (oldSvc newSvc : kapi.Service) : M (list logLine) :=
  errors ← updateServicePortClaim portHandler oldSvc newSvc;
  ret (LogUpdating (kapi.Namespace oldSvc) (kapi.Name oldSvc) <$> errors).

Definition DeleteFunc (svc : kapi.Service) : M (list logLine) :=
  errors ← deleteServicePortClaim portHandler svc;
  ret (LogRemoving (kapi.Namespace svc) (kapi.Name svc) <$> errors).

Definition handleEvent (ev : ServiceEvent) : M (list logLine) :=
  match ev with
  | Added svc => AddFunc svc
  | Updated oldSvc newSvc => UpdateFunc oldSvc newSvc
  | Deleted svc => DeleteFunc svc
  end.

(** The events of a run, delivered one after the other. *)
Fixpoint handleEvents (evs : list ServiceEvent) : M (list logLine) :=
  match evs with
  | [] => ret []
  | ev :: evs' =>
      lines ← handleEvent ev;
      lines' ← handleEvents evs';
      ret (lines ++ lines')
  end.

End registered.

(** ** Properties of the ledger *)

Lemma bind_run {A B} (m : M A) (k : A → M B) w :
  (m ≫= k) w = let '(a, w') := m w in k a w'.
Proof. done. Qed.

Lemma ret_run {A} (a : A) w : ret a w = (a, w).
Proof. done. Qed.

Ltac steps := repeat (rewrite bind_run || rewrite ret_run); cbv beta iota.

Ltac run :=
  unfold open, close, emitPortClaimEvent, emit, osOpenLocalPort, osClose,
    setPortsMap, getWatcher, ret, mbind, M_bind, mret, M_ret; cbn.

(** With the unknown family, [NewLocalPort] is left with the protocol
    check and the parse of a non-empty address. *)
Lemma NewLocalPort_unknown_family desc ip port protocol :
  utilnet.NewLocalPort ParseIP desc ip "" port protocol
  = if bool_decide (protocol ≠ utilnet.TCP) && bool_decide (protocol ≠ utilnet.UDP)
    then inr (ErrUnsupportedProtocol protocol)
    else if bool_decide (ip ≠ "") then
           match ParseIP ip with
           | None => inr (ErrInvalidIP ip)
           | Some _ => inl (identity desc ip port protocol)
           end
         else inl (identity desc ip port protocol).
Proof.
  unfold utilnet.NewLocalPort, identity.
  destruct (_ && _); [done|].
  change (bool_decide ("" ≠ utilnet.IPFamilyUnknown)) with false. cbn.
  destruct (bool_decide (ip ≠ "")); [|done].
  by destruct (ParseIP ip) as [[]|].
Qed.

Lemma NewLocalPort_identity desc ip port protocol :
  protocol = kapi.ProtocolTCP ∨ protocol = kapi.ProtocolUDP →
  ip = "" ∨ is_Some (ParseIP ip) →
  utilnet.NewLocalPort ParseIP desc ip "" port protocol
  = inl (identity desc ip port protocol).
Proof.
  intros Hproto Hip. rewrite NewLocalPort_unknown_family.
  assert (bool_decide (protocol ≠ utilnet.TCP) && bool_decide (protocol ≠ utilnet.UDP)
          = false) as ->.
  { by destruct Hproto as [-> | ->]. }
  case_bool_decide as Hne; [|done].
  by destruct Hip as [-> | [kind ->]].
Qed.

Lemma NewLocalPort_inl desc ip port protocol lp :
  utilnet.NewLocalPort ParseIP desc ip "" port protocol = inl lp →
  lp = identity desc ip port protocol
  ∧ (protocol = kapi.ProtocolTCP ∨ protocol = kapi.ProtocolUDP)
  ∧ (ip = "" ∨ is_Some (ParseIP ip)).
Proof.
  rewrite NewLocalPort_unknown_family.
  destruct (bool_decide (protocol ≠ utilnet.TCP) && bool_decide (protocol ≠ utilnet.UDP))
    eqn:Hproto; [done|].
  assert (protocol = kapi.ProtocolTCP ∨ protocol = kapi.ProtocolUDP) as Hp.
  { apply andb_false_iff in Hproto as [H | H]; apply bool_decide_eq_false in H;
      [left | right]; by apply dec_stable. }
  clear Hproto. destruct (decide (ip = "")) as [-> | Hne].
  - intros [= <-]. auto.
  - rewrite bool_decide_eq_true_2 by done.
    destruct (ParseIP ip) eqn:Hparse; [|done].
    intros [= <-]. split_and!; [done|done|]. right. eauto.
Qed.

Lemma storable_materialised p desc ip port protocol :
  storable p (identity desc ip port protocol) ↔ materialised p ip protocol.
Proof.
  unfold storable, materialised; cbn. split.
  - intros [Hnew Hlocal]. apply NewLocalPort_inl in Hnew as (_ & Hproto & Hparse).
    split; [done|]. destruct Hlocal as [-> | Hlocal]; [by left|].
    destruct Hparse as [-> | Hparse]; [by left | by right].
  - intros [Hproto Hip]. split.
    + apply NewLocalPort_identity; [done|]. destruct Hip as [? | [_ ?]]; auto.
    + destruct Hip as [? | [? _]]; auto.
Qed.

(** The node-local filter that [open] and [close] start with. *)
Lemma filter_passes p ip protocol :
  materialised p ip protocol →
  bool_decide (ip ≠ "") && bool_decide (localAddrSet p !! ip = None) = false.
Proof.
  intros [_ [-> | [[net Hnet] _]]]; [done|].
  rewrite Hnet. by rewrite andb_false_r.
Qed.

Lemma protocol_passes protocol :
  protocol = kapi.ProtocolTCP ∨ protocol = kapi.ProtocolUDP →
  bool_decide (protocol = kapi.ProtocolTCP) || bool_decide (protocol = kapi.ProtocolUDP)
  = true
  ∧ bool_decide (protocol ≠ kapi.ProtocolTCP) && bool_decide (protocol ≠ kapi.ProtocolUDP)
    = false.
Proof. by intros [-> | ->]. Qed.

(** What a call of [open] can do to the watcher: nothing, or add the
    identity of a materialised claim that was not held. *)
Lemma open_watcher desc ip port protocol svc w :
  let w' := (open desc ip port protocol svc w).2 in
  localAddrSet (watcher w') = localAddrSet (watcher w)
  ∧ (portsMap (watcher w') = portsMap (watcher w)
     ∨ ∃ c, materialised (watcher w) ip protocol
            ∧ portsMap (watcher w) !! identity desc ip port protocol = None
            ∧ portsMap (watcher w')
              = <[identity desc ip port protocol := c]> (portsMap (watcher w))).
Proof.
  run.
  destruct (bool_decide (ip ≠ "") && bool_decide (localAddrSet (watcher w) !! ip = None))
    eqn:Hfilter; cbn; [by auto|].
  destruct (bool_decide (protocol = kapi.ProtocolTCP)
            || bool_decide (protocol = kapi.ProtocolUDP)) eqn:Hproto; cbn.
  - destruct (utilnet.NewLocalPort ParseIP desc ip "" port protocol) as [lp|e] eqn:Hnew;
      cbn; [|by auto].
    apply NewLocalPort_inl in Hnew as (-> & Hp & Hparse).
    destruct (portsMap (watcher w) !! identity desc ip port protocol) eqn:Hheld;
      cbn; [by auto|].
    destruct (OpenLocalPort (identity desc ip port protocol) (os w)) as [[c|e] os'];
      cbn; [|by auto].
    split; [done|]. right. exists c. split_and!; [|done..].
    split; [done|]. apply andb_false_iff in Hfilter as [H | H];
      apply bool_decide_eq_false in H.
    + left. by apply dec_stable.
    + destruct Hparse as [-> | Hparse]; [by left|]. right. split; [|done].
      by apply not_eq_None_Some.
  - destruct (bool_decide (protocol = kapi.ProtocolSCTP)); cbn; auto.
Qed.

(** What a call of [close] can do to the watcher: nothing, or remove the
    identity of the claim. *)
Lemma close_watcher desc ip port protocol svc w :
  let w' := (close desc ip port protocol svc w).2 in
  localAddrSet (watcher w') = localAddrSet (watcher w)
  ∧ (portsMap (watcher w') = portsMap (watcher w)
     ∨ portsMap (watcher w')
       = delete (identity desc ip port protocol) (portsMap (watcher w))).
Proof.
  run.
  destruct (bool_decide (protocol ≠ kapi.ProtocolTCP)
            && bool_decide (protocol ≠ kapi.ProtocolUDP)); cbn; [by auto|].
  destruct (bool_decide (ip ≠ "") && bool_decide (localAddrSet (watcher w) !! ip = None));
    cbn; [by auto|].
  destruct (utilnet.NewLocalPort ParseIP desc ip "" port protocol) as [lp|e] eqn:Hnew;
    cbn; [|by auto].
  apply NewLocalPort_inl in Hnew as (-> & _ & _).
  destruct (portsMap (watcher w) !! identity desc ip port protocol) as [c|];
    cbn; [|by auto].
  destruct (CloseSocket c (os w)) as [[e|] os']; cbn; auto.
Qed.

Lemma storable_localAddrSet p p' lp :
  localAddrSet p' = localAddrSet p → storable p lp → storable p' lp.
Proof. unfold storable. by intros ->. Qed.

Lemma reachable_ledger_ok w : reachable w → ledger_ok w.
Proof.
  induction 1 as [addrs os0 | w desc ip port protocol svc _ IH
                 | w desc ip port protocol svc _ IH | w os' _ IH].
  - intros lp c. cbn. by rewrite lookup_empty.
  - destruct (open_watcher desc ip port protocol svc w) as [Haddrs Hmap].
    intros lp c Hlp. apply (storable_localAddrSet (watcher w)); [done|].
    destruct Hmap as [Hmap | (c' & Hmat & _ & Hmap)]; rewrite Hmap in Hlp.
    + by eapply IH.
    + destruct (decide (identity desc ip port protocol = lp)) as [<- | Hne].
      * by apply storable_materialised.
      * rewrite lookup_insert_ne in Hlp by done. by eapply IH.
  - destruct (close_watcher desc ip port protocol svc w) as [Haddrs Hmap].
    intros lp c Hlp. apply (storable_localAddrSet (watcher w)); [done|].
    destruct Hmap as [Hmap | Hmap]; rewrite Hmap in Hlp.
    + by eapply IH.
    + apply lookup_delete_Some in Hlp as [_ Hlp]. by eapply IH.
  - exact IH.
Qed.

Lemma held_materialised w desc ip port protocol c :
  reachable w →
  portsMap (watcher w) !! identity desc ip port protocol = Some c →
  materialised (watcher w) ip protocol.
Proof.
  intros Hreach Hheld. apply (storable_materialised _ desc ip port protocol).
  by eapply reachable_ledger_ok.
Qed.

(** The body of [open] for a materialised claim: the part under the lock. *)
Lemma open_materialised desc ip port protocol svc w :
  materialised (watcher w) ip protocol →
  open desc ip port protocol svc w
  = match portsMap (watcher w) !! identity desc ip port protocol with
    | Some _ => (Some (ErrOpenAgain (kapi.Namespace svc) (kapi.Name svc) port), w)
    | None =>
        match OpenLocalPort (identity desc ip port protocol) (os w) with
        | (inl c, os') =>
            (None,
             {| watcher :=
                  {| localAddrSet := localAddrSet (watcher w);
                     portsMap := <[identity desc ip port protocol := c]>
                                   (portsMap (watcher w)) |};
                os := os';
                trace := trace w ++ [OsOpen (identity desc ip port protocol)] |})
        | (inr msg, os') =>
            (Some (ErrOS msg),
             {| watcher := watcher w;
                os := os';
                trace := (trace w ++ [OsOpen (identity desc ip port protocol)])
                         ++ [Eventf (kapi.Namespace svc) (kapi.Name svc) port
                               (ErrOS msg)] |})
        end
    end.
Proof.
  intros Hmat. run. rewrite (filter_passes _ _ _ Hmat).
  destruct Hmat as [Hproto Hip].
  rewrite (proj1 (protocol_passes _ Hproto)). cbn.
  rewrite NewLocalPort_identity; [|done|destruct Hip as [? | [_ ?]]; auto]. cbn.
  destruct (portsMap (watcher w) !! identity desc ip port protocol); [done|].
  by destruct (OpenLocalPort (identity desc ip port protocol) (os w)) as [[c|e] os'].
Qed.

(** The body of [close] for a materialised claim. *)
Lemma close_materialised desc ip port protocol svc w :
  materialised (watcher w) ip protocol →
  close desc ip port protocol svc w
  = match portsMap (watcher w) !! identity desc ip port protocol with
    | None => (Some (ErrNeverOpened (kapi.Namespace svc) (kapi.Name svc) port), w)
    | Some c =>
        match CloseSocket c (os w) with
        | (Some msg, os') =>
            (Some (ErrClosing (kapi.Namespace svc) (kapi.Name svc) port (ErrOS msg)),
             {| watcher := watcher w; os := os';
                trace := trace w ++ [OsClose c] |})
        | (None, os') =>
            (None,
             {| watcher :=
                  {| localAddrSet := localAddrSet (watcher w);
                     portsMap := delete (identity desc ip port protocol)
                                   (portsMap (watcher w)) |};
                os := os';
                trace := trace w ++ [OsClose c] |})
        end
    end.
Proof.
  intros Hmat. run.
  rewrite (proj2 (protocol_passes _ (proj1 Hmat))). cbn.
  rewrite (filter_passes _ _ _ Hmat). cbn.
  destruct Hmat as [Hproto Hip].
  rewrite NewLocalPort_identity; [|done|destruct Hip as [? | [_ ?]]; auto]. cbn.
  destruct (portsMap (watcher w) !! identity desc ip port protocol) as [c|]; [|done].
  by destruct (CloseSocket c (os w)) as [[e|] os'].
Qed.

(** A claim at an address that is not one of the node's is a no-op for
    [open] and for [close]. *)
Lemma foreign_address_noop desc ip port protocol svc w :
  ip ≠ "" → localAddrSet (watcher w) !! ip = None →
  open desc ip port protocol svc w = (None, w)
  ∧ close desc ip port protocol svc w = (None, w).
Proof.
  intros Hne Hnone. run.
  rewrite (bool_decide_eq_true_2 _ Hne), (bool_decide_eq_true_2 _ Hnone). cbn.
  split; [done|]. destruct (_ && _); cbn; [done|].
  by rewrite (bool_decide_eq_true_2 _ Hnone).
Qed.

(** C1. On a reachable world, [open] of a claim whose identity
    (description, address, port, protocol) is held by the ledger returns the
    "open ... again" error (DuplicateClaim) and the world is the one it was
    called in: same ledger, hence same reservation under that identity, no
    call to the OS, no event. *)
Theorem open_duplicate_claim w desc ip port protocol svc c :
  reachable w →
  portsMap (watcher w) !! identity desc ip port protocol = Some c →
  open desc ip port protocol svc w
  = (Some (ErrOpenAgain (kapi.Namespace svc) (kapi.Name svc) port), w).
Proof.
  intros Hreach Hheld.
  rewrite open_materialised by (by eapply held_materialised).
  by rewrite Hheld.
Qed.

(** C3. For a claim held by the ledger of a reachable world with socket
    [c]: when [c.Close()] fails with [err], [close] returns the "error
    closing socket" error (ReleaseFailure) that wraps [err] and the watcher
    is unchanged, so the entry is still there; when [c.Close()] succeeds,
    [close] returns nil and the entry is deleted. *)
Theorem close_release_failure w desc ip port protocol svc c :
  reachable w →
  portsMap (watcher w) !! identity desc ip port protocol = Some c →
  (∀ msg os',
      CloseSocket c (os w) = (Some msg, os') →
      ∃ w', close desc ip port protocol svc w
            = (Some (ErrClosing (kapi.Namespace svc) (kapi.Name svc) port (ErrOS msg)),
               w')
            ∧ watcher w' = watcher w
            ∧ portsMap (watcher w') !! identity desc ip port protocol = Some c)
  ∧ (∀ os',
      CloseSocket c (os w) = (None, os') →
      ∃ w', close desc ip port protocol svc w = (None, w')
            ∧ portsMap (watcher w')
              = delete (identity desc ip port protocol) (portsMap (watcher w))
            ∧ portsMap (watcher w') !! identity desc ip port protocol = None).
Proof.
  intros Hreach Hheld.
  pose proof (held_materialised _ _ _ _ _ _ Hreach Hheld) as Hmat.
  split.
  - intros msg os' Hclose. eexists.
    rewrite close_materialised, Hheld, Hclose by done. done.
  - intros os' Hclose. eexists.
    rewrite close_materialised, Hheld, Hclose by done. cbn.
    split_and!; [done..|]. apply lookup_delete_eq.
Qed.

(** C5. For an SCTP claim, with any port, address and description, [open]
    and [close] return nil in the world they were called in: the ledger, the
    OS and the trace (no OS call) are unchanged. *)
Theorem sctp_noop w desc ip port svc :
  open desc ip port kapi.ProtocolSCTP svc w = (None, w)
  ∧ close desc ip port kapi.ProtocolSCTP svc w = (None, w).
Proof.
  run. split; [|done].
  by destruct (bool_decide (ip ≠ "") && _).
Qed.

(** C6. For a TCP or UDP claim whose address is empty or an IP address and
    whose identity is not held, when the OS opens the port and then closes
    the socket it returned, [open] and then [close] both return nil and the
    watcher is back to what it was, with no entry under the identity.  Where
    the claim is materialised (empty or node-local address), the world in
    between holds the entry that [open] created. *)
Theorem open_close_round_trip w desc ip port protocol svc c os1 os2 :
  protocol = kapi.ProtocolTCP ∨ protocol = kapi.ProtocolUDP →
  ip = "" ∨ is_Some (ParseIP ip) →
  portsMap (watcher w) !! identity desc ip port protocol = None →
  OpenLocalPort (identity desc ip port protocol) (os w) = (inl c, os1) →
  CloseSocket c os1 = (None, os2) →
  ∃ w1 w2,
    open desc ip port protocol svc w = (None, w1)
    ∧ close desc ip port protocol svc w1 = (None, w2)
    ∧ watcher w2 = watcher w
    ∧ portsMap (watcher w2) !! identity desc ip port protocol = None
    ∧ (ip = "" ∨ is_Some (localAddrSet (watcher w) !! ip) →
       portsMap (watcher w1) !! identity desc ip port protocol = Some c
       ∧ trace w2 = trace w ++ [OsOpen (identity desc ip port protocol); OsClose c]).
Proof.
  intros Hproto Hip Habsent Hopen Hclose.
  destruct (decide (ip = "" ∨ is_Some (localAddrSet (watcher w) !! ip)))
    as [Hlocal | Hforeign].
  - assert (materialised (watcher w) ip protocol) as Hmat.
    { split; [done|]. destruct Hlocal as [-> | Hlocal]; [by left|].
      destruct Hip as [-> | Hip]; [by left | by right]. }
    do 2 eexists. rewrite open_materialised, Habsent, Hopen by done.
    split; [done|]. rewrite close_materialised by done. cbn.
    rewrite lookup_insert_eq, Hclose. cbn.
    rewrite delete_insert_eq, delete_id by done.
    split_and!; [done|by destruct w as [[] ? ?]|done|].
    intros _. by rewrite <-app_assoc.
  - assert (ip ≠ "" ∧ localAddrSet (watcher w) !! ip = None) as [Hne Hnone].
    { split; [by auto|]. apply eq_None_not_Some. by auto. }
    destruct (foreign_address_noop desc ip port protocol svc w Hne Hnone) as [Ho Hc].
    exists w, w. split_and!; [done..|]. by intros.
Qed.

(** C7. For a TCP or UDP claim at the empty address or at an address of
    the node whose identity is not held, [close] returns the "port was never
    opened" error (UntrackedRelease) in the world it was called in: no OS
    call is made and the ledger is unchanged. *)
Theorem close_untracked w desc ip port protocol svc :
  materialised (watcher w) ip protocol →
  portsMap (watcher w) !! identity desc ip port protocol = None →
  close desc ip port protocol svc w
  = (Some (ErrNeverOpened (kapi.Namespace svc) (kapi.Name svc) port), w).
Proof.
  intros Hmat Habsent. by rewrite close_materialised, Habsent.
Qed.

(** For an identity that is not held, [open] leaves an entry exactly when
    it returns nil for a materialised claim. *)
Lemma open_absent_entry desc ip port protocol svc w :
  portsMap (watcher w) !! identity desc ip port protocol = None →
  is_Some (portsMap (watcher (open desc ip port protocol svc w).2)
             !! identity desc ip port protocol)
  ↔ (open desc ip port protocol svc w).1 = None
    ∧ materialised (watcher w) ip protocol.
Proof.
  intros Habsent.
  destruct (decide (materialised (watcher w) ip protocol)) as [Hmat | Hnot].
  - rewrite open_materialised, Habsent by done.
    destruct (OpenLocalPort (identity desc ip port protocol) (os w)) as [[c|msg] os'];
      cbn.
    + rewrite lookup_insert_eq. by split; [|eauto].
    + rewrite Habsent. split; [by intros [? [=]] | by intros [[=] _]].
  - destruct (open_watcher desc ip port protocol svc w) as [_ [-> | (c & Hmat & _)]];
      [|done].
    rewrite Habsent. split; [by intros [? [=]] | by intros [_ ?]].
Qed.

(** Calls of [open] for pairwise distinct identities, none of them held:
    afterwards the ledger has an entry for exactly the identities whose call
    returned nil for a materialised claim, and every other identity is as
    before. *)
Lemma open_each_ledger calls w :
  NoDup (callIdentity <$> calls) →
  (∀ c, c ∈ calls → portsMap (watcher w) !! callIdentity c = None) →
  let rs := (open_each calls w).1 in
  let w' := (open_each calls w).2 in
  length rs = length calls
  ∧ localAddrSet (watcher w') = localAddrSet (watcher w)
  ∧ (∀ lp, lp ∉ callIdentity <$> calls →
           portsMap (watcher w') !! lp = portsMap (watcher w) !! lp)
  ∧ (∀ i c r, calls !! i = Some c → rs !! i = Some r →
       is_Some (portsMap (watcher w') !! callIdentity c)
       ↔ r = None ∧ materialised (watcher w) (callIP c) (callProtocol c)).
Proof.
  revert w. induction calls as [|c calls IH]; intros w Hnodup Habsent.
  - cbn. split_and!; [done..|]. by intros [].
  - apply NoDup_cons in Hnodup as [Hfresh Hnodup]. cbn [open_each].
    rewrite bind_run.
    pose proof (open_watcher (callDesc c) (callIP c) (callPort c) (callProtocol c)
                  (callSvc c) w) as [Haddrs Hmap].
    pose proof (open_absent_entry (callDesc c) (callIP c) (callPort c) (callProtocol c)
                  (callSvc c) w (Habsent c ltac:(left))) as Hentry.
    destruct (open (callDesc c) (callIP c) (callPort c) (callProtocol c) (callSvc c) w)
      as [r w0]. cbn in Haddrs, Hmap, Hentry.
    assert (∀ lp, lp ≠ callIdentity c →
              portsMap (watcher w0) !! lp = portsMap (watcher w) !! lp) as Hother.
    { intros lp Hne. destruct Hmap as [-> | (c0 & _ & _ & ->)]; [done|].
      by rewrite lookup_insert_ne. }
    destruct (IH w0 Hnodup) as (Hlen & Haddrs' & Hframe & Hmine).
    { intros c' Hc'. rewrite Hother; [apply Habsent; by right|].
      intros Heq. apply Hfresh. rewrite <-Heq. by apply list_elem_of_fmap_2. }
    rewrite bind_run. destruct (open_each calls w0) as [rs w'].
    rewrite ret_run. cbn in *. split_and!.
    + by rewrite Hlen.
    + by rewrite Haddrs'.
    + intros lp Hlp. apply not_elem_of_cons in Hlp as [Hne Hlp].
      by rewrite Hframe, Hother.
    + intros [|i] c' r'; cbn.
      * intros [= <-] [= <-]. by rewrite Hframe.
      * intros Hc' Hr'. rewrite (Hmine i c' r' Hc' Hr').
        unfold materialised. by rewrite Haddrs.
Qed.

(** [open] reports a duplicate only for an identity that is held. *)
Lemma open_duplicate_held desc ip port protocol svc w :
  isDuplicateClaim (open desc ip port protocol svc w).1 →
  is_Some (portsMap (watcher w) !! identity desc ip port protocol).
Proof.
  intros (ns & name & port' & Hdup). revert Hdup. run.
  destruct (bool_decide (ip ≠ "") && _); cbn; [done|].
  destruct (bool_decide (protocol = kapi.ProtocolTCP) || _); cbn.
  - destruct (utilnet.NewLocalPort ParseIP desc ip "" port protocol) as [lp|e] eqn:Hnew;
      cbn.
    + apply NewLocalPort_inl in Hnew as (-> & _ & _).
      destruct (portsMap (watcher w) !! identity desc ip port protocol);
        cbn; [by eauto|].
      by destruct (OpenLocalPort (identity desc ip port protocol) (os w)) as [[c|e] os'].
    + rewrite NewLocalPort_unknown_family in Hnew.
      destruct (_ && _) in Hnew; [by injection Hnew as <-|].
      destruct (bool_decide (ip ≠ "")) in Hnew; [|done].
      destruct (ParseIP ip) in Hnew; [done|]. by injection Hnew as <-.
  - by destruct (bool_decide (protocol = kapi.ProtocolSCTP)).
Qed.

Lemma identity_description desc1 desc2 ip port protocol :
  desc1 ≠ desc2 → identity desc1 ip port protocol ≠ identity desc2 ip port protocol.
Proof. intros Hne [= ?]. done. Qed.

(** C4. Two claims with the same (address, port, protocol) and different
    descriptions have different identities.  After an [open] of the first
    that returned nil, an [open] of the second, whose identity was not held,
    is not answered with the "open ... again" error (DuplicateClaim); and for
    a materialised claim, when the OS opens the port for the second, the
    ledger holds one entry for each description, both for the same
    (address, port, protocol). *)
Theorem description_distinguishes_claims w w1 desc1 desc2 ip port protocol svc1 svc2 :
  desc1 ≠ desc2 →
  portsMap (watcher w) !! identity desc2 ip port protocol = None →
  open desc1 ip port protocol svc1 w = (None, w1) →
  identity desc1 ip port protocol ≠ identity desc2 ip port protocol
  ∧ ¬ isDuplicateClaim (open desc2 ip port protocol svc2 w1).1
  ∧ (∀ c2 os2,
       materialised (watcher w) ip protocol →
       OpenLocalPort (identity desc2 ip port protocol) (os w1) = (inl c2, os2) →
       ∃ c1 w2,
         open desc2 ip port protocol svc2 w1 = (None, w2)
         ∧ portsMap (watcher w) !! identity desc1 ip port protocol = None
         ∧ portsMap (watcher w2)
           = <[identity desc2 ip port protocol := c2]>
               (<[identity desc1 ip port protocol := c1]> (portsMap (watcher w)))
         ∧ portsMap (watcher w2) !! identity desc1 ip port protocol = Some c1
         ∧ portsMap (watcher w2) !! identity desc2 ip port protocol = Some c2).
Proof.
  intros Hdesc Habsent Hopen.
  pose proof (identity_description _ _ ip port protocol Hdesc) as Hid.
  assert (portsMap (watcher w1) !! identity desc2 ip port protocol = None)
    as Habsent1.
  { destruct (open_watcher desc1 ip port protocol svc1 w) as [_ Hmap].
    rewrite Hopen in Hmap. cbn in Hmap.
    destruct Hmap as [-> | (c & _ & _ & ->)]; [done|].
    by rewrite lookup_insert_ne. }
  split_and!; [done| |].
  - intros Hdup%open_duplicate_held. rewrite Habsent1 in Hdup. by destruct Hdup.
  - intros c2 os2 Hmat Hos.
    rewrite open_materialised in Hopen by done.
    destruct (portsMap (watcher w) !! identity desc1 ip port protocol) eqn:Hheld1;
      [done|].
    destruct (OpenLocalPort (identity desc1 ip port protocol) (os w)) as [[c1|msg] os1];
      [|done].
    injection Hopen as <-. exists c1. eexists.
    rewrite open_materialised by done. cbn.
    rewrite lookup_insert_ne by done. cbn in Hos. rewrite Habsent, Hos. cbn.
    split_and!; [done..| |]; cbn.
    + rewrite lookup_insert_ne by done. apply lookup_insert_eq.
    + apply lookup_insert_eq.
Qed.

(** ** Properties of the service handlers *)

(** *** Descriptions *)

Lemma string_app_assoc (s1 s2 s3 : string) : (s1 +:+ s2) +:+ s3 = s1 +:+ s2 +:+ s3.
Proof.
  induction s1 as [|a s1 IH]; [done|].
  change (String a ((s1 +:+ s2) +:+ s3) = String a (s1 +:+ s2 +:+ s3)).
  by rewrite IH.
Qed.

Lemma string_app_nil_r (s : string) : s +:+ "" = s.
Proof.
  induction s as [|a s IH]; [done|].
  change (String a (s +:+ "") = String a s). by rewrite IH.
Qed.

Lemma string_length_zero (s : string) : String.length s = 0 ↔ s = "".
Proof. by destruct s. Qed.

(** The descriptions that the code formats are the ones of the
    specification. *)
Lemma getDescription_nodePort portName svc :
  getDescription portName svc true = spec_description "nodePort" svc portName.
Proof.
  unfold getDescription, spec_description, NamespacedName_String.
  rewrite (bool_decide_ext _ (portName = "")) by apply string_length_zero.
  destruct (bool_decide (portName = "")).
  - by rewrite string_app_nil_r.
  - by rewrite !string_app_assoc.
Qed.

Lemma getDescription_externalIP portName svc :
  getDescription portName svc false = spec_description "externalIP" svc portName.
Proof.
  unfold getDescription, spec_description, NamespacedName_String.
  rewrite (bool_decide_ext _ (portName = "")) by apply string_length_zero.
  destruct (bool_decide (portName = "")).
  - by rewrite string_app_nil_r.
  - by rewrite !string_app_assoc.
Qed.

Ltac run_batch :=
  unfold handlePort, spec_attempt, ret, mbind, M_bind, mret, M_ret; cbn.

Lemma spec_batch_app op claims1 claims2 w :
  spec_batch op (claims1 ++ claims2) w
  = let '(errs1, w1) := spec_batch op claims1 w in
    let '(errs2, w2) := spec_batch op claims2 w1 in
    (errs1 ++ errs2, w2).
Proof.
  revert w. induction claims1 as [|c claims1 IH]; intros w; cbn.
  - unfold ret, mret, M_ret. by destruct (spec_batch op claims2 w).
  - unfold mbind, M_bind, ret, mret, M_ret.
    destruct (spec_attempt op c w) as [r w0]. rewrite IH.
    destruct (spec_batch op claims1 w0) as [errs1 w1].
    destruct (spec_batch op claims2 w1) as [errs2 w2].
    by rewrite app_assoc.
Qed.

Lemma appendErr_option_list errors r :
  appendErr errors r = errors ++ option_list r.
Proof. destruct r; cbn; [done|]. by rewrite app_nil_r. Qed.

Section refinement.

(** A handler [h] and the ledger operation [op] of the specification
    that it implements for the claims of [svc]. *)
Variable svc : kapi.Service.
Variable h : handler.
Variable op : PortClaim → M (option error).
Hypothesis h_op : ∀ desc ip port protocol,
  h desc ip port protocol svc
  = op {| description := desc; address := ip; port := port; protocol := protocol;
          owner := serviceRef svc |}.

Lemma handlePort_attempt desc ip port protocol w :
  handlePort desc svc ip port protocol h w
  = spec_attempt op {| description := desc; address := ip; port := port;
                       protocol := protocol; owner := serviceRef svc |} w.
Proof using h_op.
  run_batch. destruct (util.ValidatePort protocol port); [done|].
  by rewrite h_op.
Qed.

(** The inner loop, over the external IPs of one port. *)
Lemma externalIPs_loop desc port protocol ips errors w :
  foldM (λ errors externalIP,
      r ← handlePort desc svc externalIP port protocol h;
      ret (appendErr errors r)) ips errors w
  = let '(errs, w') :=
      spec_batch op
        (map (λ externalIP,
           {| description := desc; address := externalIP; port := port;
              protocol := protocol; owner := serviceRef svc |}) ips) w in
    (errors ++ errs, w').
Proof using h_op.
  revert errors w. induction ips as [|ip ips IH]; intros errors w; cbn.
  - unfold ret, mret, M_ret. by rewrite app_nil_r.
  - unfold mbind, M_bind, ret, mret, M_ret. rewrite handlePort_attempt.
    destruct (spec_attempt op _ w) as [r w0]. rewrite IH.
    destruct (spec_batch op _ w0) as [errs w1].
    by rewrite appendErr_option_list, <-(assoc_L (++)).
Qed.

Lemma ports_loop ports errors w :
  foldM (λ errors svcPort,
      errors ←
        (if util.ServiceTypeHasNodePort svc then
           r ← handlePort (getDescription (kapi.PortName svcPort) svc true) svc ""
                 (kapi.NodePort svcPort) (kapi.PortProtocol svcPort) h;
           ret (appendErr errors r)
         else ret errors);
      foldM (λ errors externalIP,
          r ← handlePort (getDescription (kapi.PortName svcPort) svc false) svc
                externalIP (kapi.Port svcPort) (kapi.PortProtocol svcPort) h;
          ret (appendErr errors r))
        (elems (kapi.ExternalIPs (kapi.Spec svc))) errors)
    ports errors w
  = let '(errs, w') := spec_batch op (flat_map (spec_port_claims svc) ports) w in
    (errors ++ errs, w').
Proof using h_op.
  revert errors w. induction ports as [|svcPort ports IH]; intros errors w.
  - cbn. unfold ret, mret, M_ret. by rewrite app_nil_r.
  - cbn [foldM flat_map]. rewrite spec_batch_app.
    unfold spec_port_claims at 1. rewrite spec_batch_app.
    rewrite <-getDescription_nodePort, <-getDescription_externalIP.
    rewrite bind_run.
    destruct (util.ServiceTypeHasNodePort svc).
    + cbn [spec_batch]. rewrite !bind_run, handlePort_attempt.
      destruct (spec_attempt op _ w) as [r w0]. steps.
      rewrite externalIPs_loop.
      destruct (spec_batch op (map _ _) w0) as [errs1 w1].
      rewrite IH. destruct (spec_batch op (flat_map _ _) w1) as [errs2 w2].
      rewrite appendErr_option_list, app_nil_r.
      by rewrite <-!(assoc_L (++)).
    + cbn [spec_batch]. steps.
      rewrite externalIPs_loop.
      destruct (spec_batch op (map _ _) w) as [errs1 w1].
      rewrite IH. destruct (spec_batch op (flat_map _ _) w1) as [errs2 w2].
      by rewrite <-!(assoc_L (++)).
Qed.

(** [handleService] attempts, in order, the claims that the Extractor of
    the specification derives from the Service. *)
Lemma handleService_batch w :
  handleService svc h w = spec_batch op (Extractor svc) w.
Proof using h_op.
  unfold handleService, Extractor, len.
  rewrite (bool_decide_ext _ (elems (kapi.ExternalIPs (kapi.Spec svc)) = []))
    by apply length_zero_iff_nil.
  destruct (negb _ && _); [done|].
  rewrite ports_loop. by destruct (spec_batch op _ w).
Qed.

End refinement.


(** [open] and [close] read the namespace and the name of the Service they
    are given, nothing else. *)
Lemma open_owner desc ip port protocol svc :
  open desc ip port protocol svc
  = Ledger_open {| description := desc; address := ip; port := port;
                   protocol := protocol; owner := serviceRef svc |}.
Proof. done. Qed.

Lemma close_owner desc ip port protocol svc :
  close desc ip port protocol svc
  = Ledger_close {| description := desc; address := ip; port := port;
                    protocol := protocol; owner := serviceRef svc |}.
Proof. done. Qed.

(** Added(svc) and Deleted(svc) of the specification are what the handlers
    do with the watcher as [portHandler]. *)
Lemma addServicePortClaim_spec svc w :
  addServicePortClaim portClaimWatcher_handler svc w = spec_Added svc w.
Proof. apply handleService_batch. intros. apply open_owner. Qed.

Lemma deleteServicePortClaim_spec svc w :
  deleteServicePortClaim portClaimWatcher_handler svc w = spec_Deleted svc w.
Proof. apply handleService_batch. intros. apply close_owner. Qed.

(** C2. When the Ports or the ExternalIPs of the old and the new Service
    differ, [updateServicePortClaim] is [deleteServicePortClaim] on the old
    Service followed by [addServicePortClaim] on the new one, for every
    implementation of the handler interface, and its errors are the errors
    of the first followed by the errors of the second.  With the watcher as
    handler this is the full reconciliation of the specification: [close]
    is attempted for every claim that the Extractor derives from the old
    Service, then [open] for every claim it derives from the new one, with
    no claim left out for being in both. *)
Theorem update_is_delete_then_add oldSvc newSvc w :
  kapi.Ports (kapi.Spec oldSvc) ≠ kapi.Ports (kapi.Spec newSvc)
  ∨ kapi.ExternalIPs (kapi.Spec oldSvc) ≠ kapi.ExternalIPs (kapi.Spec newSvc) →
  (∀ portHandler : localPortHandler,
      updateServicePortClaim portHandler oldSvc newSvc w
      = let '(deleted, w1) := deleteServicePortClaim portHandler oldSvc w in
        let '(added, w2) := addServicePortClaim portHandler newSvc w1 in
        (deleted ++ added, w2))
  ∧ updateServicePortClaim portClaimWatcher_handler oldSvc newSvc w
    = spec_Updated_full oldSvc newSvc w.
Proof.
  intros Hdiff.
  assert (∀ portHandler : localPortHandler,
      updateServicePortClaim portHandler oldSvc newSvc w
      = let '(deleted, w1) := deleteServicePortClaim portHandler oldSvc w in
        let '(added, w2) := addServicePortClaim portHandler newSvc w1 in
        (deleted ++ added, w2)) as Hcode.
  { intros portHandler. unfold updateServicePortClaim, DeepEqual.
    assert (bool_decide (kapi.ExternalIPs (kapi.Spec oldSvc)
                         = kapi.ExternalIPs (kapi.Spec newSvc))
            && bool_decide (kapi.Ports (kapi.Spec oldSvc) = kapi.Ports (kapi.Spec newSvc))
            = false) as ->.
    { apply andb_false_iff.
      destruct Hdiff as [H | H]; [right | left]; by apply bool_decide_eq_false. }
    steps.
    destruct (deleteServicePortClaim portHandler oldSvc w) as [deleted w1]. steps.
    by destruct (addServicePortClaim portHandler newSvc w1) as [added w2]. }
  split; [done|].
  rewrite Hcode. unfold spec_Updated_full. steps.
  rewrite deleteServicePortClaim_spec.
  destruct (spec_Deleted oldSvc w) as [deleted w1]. steps.
  rewrite addServicePortClaim_spec.
  by destruct (spec_Added newSvc w1) as [added w2].
Qed.

(** C8. When [reflect.DeepEqual] holds of the Ports of the old and the new
    Service and of their ExternalIPs (same elements in the same order),
    [updateServicePortClaim] returns no error in the world it was called in,
    whatever the implementation of the handler interface: neither of its
    methods is called, and the ledger, the OS and the trace are unchanged. *)
Theorem update_equal_fields_noop (portHandler : localPortHandler) oldSvc newSvc w :
  DeepEqual (kapi.Ports (kapi.Spec oldSvc)) (kapi.Ports (kapi.Spec newSvc)) = true →
  DeepEqual (kapi.ExternalIPs (kapi.Spec oldSvc)) (kapi.ExternalIPs (kapi.Spec newSvc))
  = true →
  updateServicePortClaim portHandler oldSvc newSvc w = ([], w).
Proof.
  intros Hports Hips. unfold updateServicePortClaim. by rewrite Hports, Hips.
Qed.

(** ** Further properties of the ledger *)

Lemma not_foreign p ip :
  bool_decide (ip ≠ "") && bool_decide (localAddrSet p !! ip = None) = false →
  passesFilter p ip.
Proof.
  intros [H | H]%andb_false_iff; apply bool_decide_eq_false in H.
  - left. by apply dec_stable.
  - right. by apply not_eq_None_Some.
Qed.

Lemma passesFilter_false p ip :
  passesFilter p ip →
  bool_decide (ip ≠ "") && bool_decide (localAddrSet p !! ip = None) = false.
Proof.
  intros [-> | [net Hnet]]; [done|]. rewrite Hnet. by rewrite andb_false_r.
Qed.

Lemma materialised_of_new_local_port p desc ip port protocol lp :
  passesFilter p ip →
  utilnet.NewLocalPort ParseIP desc ip "" port protocol = inl lp →
  lp = identity desc ip port protocol ∧ materialised p ip protocol.
Proof.
  intros Hfilter (-> & Hproto & Hparse)%NewLocalPort_inl. split; [done|].
  split; [done|]. destruct Hfilter as [-> | Hlocal]; [by left|].
  destruct Hparse as [-> | Hparse]; [by left | by right].
Qed.

(** Every call of [open] takes one of the paths of [open_outcome]. *)
Lemma open_outcome_holds desc ip port protocol svc w :
  open_outcome desc ip port protocol svc w
    (open desc ip port protocol svc w).1 (open desc ip port protocol svc w).2.
Proof.
  destruct (bool_decide (ip ≠ "") && bool_decide (localAddrSet (watcher w) !! ip = None))
    eqn:Hfilter.
  { run. rewrite Hfilter. cbn.
    apply andb_true_iff in Hfilter as [Hne%bool_decide_eq_true Hnone%bool_decide_eq_true].
    by apply oo_foreign. }
  apply not_foreign in Hfilter as Hpass.
  destruct (decide (protocol = kapi.ProtocolTCP ∨ protocol = kapi.ProtocolUDP))
    as [Hproto | Hother].
  - destruct (utilnet.NewLocalPort ParseIP desc ip "" port protocol) as [lp|e] eqn:Hnew.
    + destruct (materialised_of_new_local_port _ _ _ _ _ _ Hpass Hnew) as [_ Hmat].
      rewrite open_materialised by done.
      destruct (portsMap (watcher w) !! identity desc ip port protocol) as [c|] eqn:Hheld.
      { by eapply oo_duplicate. }
      destruct (OpenLocalPort (identity desc ip port protocol) (os w)) as [[c|msg] os']
        eqn:Hos.
      * by apply oo_reserved.
      * by apply oo_refused.
    + run. rewrite Hfilter, (proj1 (protocol_passes _ Hproto)), Hnew. cbn.
      by apply oo_no_local_port.
  - assert (protocol ≠ kapi.ProtocolTCP ∧ protocol ≠ kapi.ProtocolUDP) as [Htcp Hudp].
    { split; intros ->; apply Hother; auto. }
    run. rewrite Hfilter. cbn.
    rewrite (bool_decide_eq_false_2 _ Htcp), (bool_decide_eq_false_2 _ Hudp). cbn.
    destruct (decide (protocol = kapi.ProtocolSCTP)) as [-> | Hsctp].
    + by apply oo_sctp.
    + rewrite (bool_decide_eq_false_2 _ Hsctp). cbn. by apply oo_unknown_protocol.
Qed.

(** Every call of [close] takes one of the paths of [close_outcome]. *)
Lemma close_outcome_holds desc ip port protocol svc w :
  close_outcome desc ip port protocol svc w
    (close desc ip port protocol svc w).1 (close desc ip port protocol svc w).2.
Proof.
  destruct (decide (protocol = kapi.ProtocolTCP ∨ protocol = kapi.ProtocolUDP))
    as [Hproto | Hother].
  - destruct (bool_decide (ip ≠ "") && bool_decide (localAddrSet (watcher w) !! ip = None))
      eqn:Hfilter.
    { run. rewrite (proj2 (protocol_passes _ Hproto)). cbn. rewrite Hfilter. cbn.
      apply andb_true_iff in Hfilter as [Hne%bool_decide_eq_true Hnone%bool_decide_eq_true].
      by apply co_foreign. }
    apply not_foreign in Hfilter as Hpass.
    destruct (utilnet.NewLocalPort ParseIP desc ip "" port protocol) as [lp|e] eqn:Hnew.
    + destruct (materialised_of_new_local_port _ _ _ _ _ _ Hpass Hnew) as [_ Hmat].
      rewrite close_materialised by done.
      destruct (portsMap (watcher w) !! identity desc ip port protocol) as [c|] eqn:Hheld.
      * destruct (CloseSocket c (os w)) as [[msg|] os'] eqn:Hos.
        -- by eapply co_close_failed.
        -- by eapply co_released.
      * by apply co_never_opened.
    + run. rewrite (proj2 (protocol_passes _ Hproto)). cbn. rewrite Hfilter, Hnew. cbn.
      by apply co_no_local_port.
  - assert (protocol ≠ kapi.ProtocolTCP ∧ protocol ≠ kapi.ProtocolUDP) as [Htcp Hudp].
    { split; intros ->; apply Hother; auto. }
    run. rewrite (bool_decide_eq_true_2 _ Htcp), (bool_decide_eq_true_2 _ Hudp). cbn.
    by apply co_other_protocol.
Qed.

(** X1. A claim at a non-empty address that is not a key of [localAddrSet]
    is ignored: [open] and [close] return nil, whatever the protocol, and the
    world is unchanged. *)
Theorem foreign_address_ignored desc ip port protocol svc w :
  ip ≠ "" → localAddrSet (watcher w) !! ip = None →
  open desc ip port protocol svc w = (None, w)
  ∧ close desc ip port protocol svc w = (None, w).
Proof. apply foreign_address_noop. Qed.

(** X2. For a protocol other than TCP, UDP and SCTP, at the empty address or
    an address of the node, [open] fails with "unknown protocol", sends one
    event to the recorder and leaves the watcher and the OS alone, while
    [close] returns nil and does nothing. *)
Theorem unknown_protocol_open_fails_close_succeeds desc ip port protocol svc w :
  passesFilter (watcher w) ip →
  protocol ≠ kapi.ProtocolTCP → protocol ≠ kapi.ProtocolUDP →
  protocol ≠ kapi.ProtocolSCTP →
  open desc ip port protocol svc w
  = (Some (ErrUnknownProtocol protocol),
     {| watcher := watcher w; os := os w;
        trace := trace w ++ [Eventf (kapi.Namespace svc) (kapi.Name svc) port
                               (ErrUnknownProtocol protocol)] |})
  ∧ close desc ip port protocol svc w = (None, w).
Proof.
  intros Hpass Htcp Hudp Hsctp. run.
  rewrite (passesFilter_false _ _ Hpass). cbn.
  rewrite (bool_decide_eq_false_2 _ Htcp), (bool_decide_eq_false_2 _ Hudp),
    (bool_decide_eq_false_2 _ Hsctp). cbn.
  by rewrite (bool_decide_eq_true_2 _ Htcp), (bool_decide_eq_true_2 _ Hudp).
Qed.

(** X3. When the OS refuses to open the port of a materialised claim that is
    not held, [open] returns the error of the OS, the watcher is unchanged (no
    reservation is recorded), and the trace grows by the OS call and one event
    that carries the error. *)
Theorem open_refused_by_os desc ip port protocol svc w msg os' :
  materialised (watcher w) ip protocol →
  portsMap (watcher w) !! identity desc ip port protocol = None →
  OpenLocalPort (identity desc ip port protocol) (os w) = (inr msg, os') →
  open desc ip port protocol svc w
  = (Some (ErrOS msg),
     {| watcher := watcher w; os := os';
        trace := trace w ++ [OsOpen (identity desc ip port protocol);
                             Eventf (kapi.Namespace svc) (kapi.Name svc) port
                               (ErrOS msg)] |}).
Proof.
  intros Hmat Habsent Hos. rewrite open_materialised, Habsent, Hos by done.
  by rewrite <-app_assoc.
Qed.

(** X4. A call of [open] that returns an error leaves the watcher as it was:
    a failure never records a reservation. *)
Theorem open_error_keeps_watcher desc ip port protocol svc w err :
  (open desc ip port protocol svc w).1 = Some err →
  watcher (open desc ip port protocol svc w).2 = watcher w.
Proof.
  pose proof (open_outcome_holds desc ip port protocol svc w) as Hout.
  destruct (open desc ip port protocol svc w) as [r w']. cbn in *.
  by destruct Hout.
Qed.

(** X5. A call of [close] that returns an error leaves the watcher as it
    was: the entry, if there is one, is kept. *)
Theorem close_error_keeps_watcher desc ip port protocol svc w err :
  (close desc ip port protocol svc w).1 = Some err →
  watcher (close desc ip port protocol svc w).2 = watcher w.
Proof.
  pose proof (close_outcome_holds desc ip port protocol svc w) as Hout.
  destruct (close desc ip port protocol svc w) as [r w']. cbn in *.
  by destruct Hout.
Qed.

(** X6. [open] never removes an entry of the ledger and never replaces the
    socket of one; the only identity it can add is the one of its claim. *)
Theorem open_only_adds_own_identity desc ip port protocol svc w :
  portsMap (watcher w) ⊆ portsMap (watcher (open desc ip port protocol svc w).2)
  ∧ dom (portsMap (watcher (open desc ip port protocol svc w).2))
    ⊆ dom (portsMap (watcher w)) ∪ {[identity desc ip port protocol]}.
Proof.
  destruct (open_watcher desc ip port protocol svc w) as [_ [-> | (c & _ & Habsent & ->)]].
  - split; [done|]. apply union_subseteq_l.
  - split; [by apply insert_subseteq|]. rewrite dom_insert_L.
    by rewrite (comm_L (∪)).
Qed.

(** X7. [close] never adds an entry to the ledger and never changes the
    socket of one; the only identity it can remove is the one of its claim. *)
Theorem close_only_removes_own_identity desc ip port protocol svc w :
  portsMap (watcher (close desc ip port protocol svc w).2) ⊆ portsMap (watcher w)
  ∧ dom (portsMap (watcher w))
    ⊆ dom (portsMap (watcher (close desc ip port protocol svc w).2))
      ∪ {[identity desc ip port protocol]}.
Proof.
  destruct (close_watcher desc ip port protocol svc w) as [_ [-> | ->]].
  - split; [done|]. apply union_subseteq_l.
  - split; [apply delete_subseteq|]. rewrite dom_delete_L.
    intros lp Hlp. destruct (decide (lp = identity desc ip port protocol)) as [-> | Hne].
    + apply elem_of_union_r. by apply elem_of_singleton.
    + apply elem_of_union_l, elem_of_difference. split; [done|].
      by rewrite elem_of_singleton.
Qed.

Lemma events_app tr1 tr2 : events (tr1 ++ tr2) = events tr1 ++ events tr2.
Proof. apply List.filter_app. Qed.

(** X8. [close] sends no event to the recorder, whatever its result. *)
Theorem close_sends_no_event desc ip port protocol svc w :
  events (trace (close desc ip port protocol svc w).2) = events (trace w).
Proof.
  pose proof (close_outcome_holds desc ip port protocol svc w) as Hout.
  destruct (close desc ip port protocol svc w) as [r w']. cbn in *.
  destruct Hout; cbn; rewrite ?events_app; cbn; by rewrite ?app_nil_r.
Qed.

Lemma NewLocalPort_error_not_again desc ip port protocol err :
  utilnet.NewLocalPort ParseIP desc ip "" port protocol = inr err →
  isOpenAgain err = false.
Proof.
  rewrite NewLocalPort_unknown_family.
  destruct (_ && _); [by intros [= <-]|].
  destruct (bool_decide (ip ≠ "")); [|done].
  destruct (ParseIP ip); [done|]. by intros [= <-].
Qed.

(** X9. [open] sends an event to the recorder exactly when it fails for
    another reason than a duplicate: one event, for the Service and the port
    of the call, that carries the error it returns. *)
Theorem open_sends_event_on_failure desc ip port protocol svc w :
  events (trace (open desc ip port protocol svc w).2)
  = events (trace w)
    ++ match (open desc ip port protocol svc w).1 with
       | Some err =>
           if isOpenAgain err then []
           else [Eventf (kapi.Namespace svc) (kapi.Name svc) port err]
       | None => []
       end.
Proof.
  pose proof (open_outcome_holds desc ip port protocol svc w) as Hout.
  destruct (open desc ip port protocol svc w) as [r w']. cbn in *.
  destruct Hout as [| | | portError _ _ Hnew | | |]; cbn;
    rewrite ?events_app; cbn; rewrite ?app_nil_r; try done.
  by rewrite (NewLocalPort_error_not_again _ _ _ _ _ Hnew).
Qed.

(** X10. In a reachable world every identity of the ledger is a TCP or UDP
    port with the unknown address family, at the wildcard address or at an
    address of the node: SCTP claims and claims at foreign addresses never get
    an entry. *)
Theorem reachable_entries_are_local_tcp_udp w lp c :
  reachable w →
  portsMap (watcher w) !! lp = Some c →
  (utilnet.Protocol lp = kapi.ProtocolTCP ∨ utilnet.Protocol lp = kapi.ProtocolUDP)
  ∧ utilnet.IPFamily lp = ""
  ∧ passesFilter (watcher w) (utilnet.IP lp).
Proof.
  intros Hreach Hheld.
  destruct (reachable_ledger_ok w Hreach lp c Hheld) as [Hnew Hlocal].
  apply NewLocalPort_inl in Hnew as (Hlp & Hproto & _).
  split_and!; [done| |done]. by rewrite Hlp.
Qed.

(** X11. Closing a released claim again fails: after a [close] that released
    the entry of a materialised claim, a second [close] of the same claim
    returns the "never opened" error and changes nothing. *)
Theorem close_twice_fails desc ip port protocol svc w c os' :
  materialised (watcher w) ip protocol →
  portsMap (watcher w) !! identity desc ip port protocol = Some c →
  CloseSocket c (os w) = (None, os') →
  ∃ w1, close desc ip port protocol svc w = (None, w1)
        ∧ close desc ip port protocol svc w1
          = (Some (ErrNeverOpened (kapi.Namespace svc) (kapi.Name svc) port), w1).
Proof.
  intros Hmat Hheld Hos. eexists.
  rewrite close_materialised, Hheld, Hos by done. split; [done|].
  rewrite close_materialised by done. cbn. by rewrite lookup_delete_eq.
Qed.

(** X12. After a [close] that failed in the OS the entry is still there, so
    an [open] of the same claim is refused as a duplicate and makes no OS
    call. *)
Theorem failed_close_blocks_open desc ip port protocol svc w c msg os' :
  materialised (watcher w) ip protocol →
  portsMap (watcher w) !! identity desc ip port protocol = Some c →
  CloseSocket c (os w) = (Some msg, os') →
  ∃ w1, close desc ip port protocol svc w
        = (Some (ErrClosing (kapi.Namespace svc) (kapi.Name svc) port (ErrOS msg)), w1)
        ∧ open desc ip port protocol svc w1
          = (Some (ErrOpenAgain (kapi.Namespace svc) (kapi.Name svc) port), w1).
Proof.
  intros Hmat Hheld Hos. eexists.
  rewrite close_materialised, Hheld, Hos by done. split; [done|].
  rewrite open_materialised by done. cbn. by rewrite Hheld.
Qed.

(** X13. In a reachable world every entry of the ledger was opened by the
    OS: the trace has a call of [OpenLocalPort] for its identity. *)
Theorem reachable_entry_was_opened w lp c :
  reachable w →
  portsMap (watcher w) !! lp = Some c →
  OsOpen lp ∈ trace w.
Proof.
  intros Hreach. revert lp c.
  induction Hreach as [addrs os0 | w desc ip port protocol svc _ IH
                      | w desc ip port protocol svc _ IH | w os' _ IH]; intros lp c.
  - cbn. by rewrite lookup_empty.
  - pose proof (open_outcome_holds desc ip port protocol svc w) as Hout.
    destruct (open desc ip port protocol svc w) as [r w']. cbn in *.
    destruct Hout as [| | | | | |c' os' _ _ _]; cbn; intros Hheld;
      rewrite ?elem_of_app; eauto.
    destruct (decide (identity desc ip port protocol = lp)) as [<- | Hne].
    + right. by apply list_elem_of_singleton.
    + rewrite lookup_insert_ne in Hheld by done. eauto.
  - pose proof (close_outcome_holds desc ip port protocol svc w) as Hout.
    destruct (close desc ip port protocol svc w) as [r w']. cbn in *.
    destruct Hout; cbn; intros Hheld; rewrite ?elem_of_app; eauto.
    apply lookup_delete_Some in Hheld as [_ Hheld]. eauto.
  - cbn. apply IH.
Qed.

(** ** Further properties of the service handlers *)

Lemma spec_batch_cons op c claims w :
  spec_batch op (c :: claims) w
  = let '(r, w0) := spec_attempt op c w in
    let '(errs, w') := spec_batch op claims w0 in
    (option_list r ++ errs, w').
Proof.
  cbn [spec_batch]. rewrite bind_run. destruct (spec_attempt op c w) as [r w0].
  rewrite bind_run. by destruct (spec_batch op claims w0) as [errs w'].
Qed.

Lemma spec_attempt_valid op c w :
  validClaim c → spec_attempt op c w = op c w.
Proof. unfold validClaim, spec_attempt. by intros ->. Qed.

Lemma spec_attempt_invalid op c w err :
  util.ValidatePort (protocol c) (port c) = Some err →
  spec_attempt op c w = (Some (ErrInvalidServicePort (refName (owner c)) err), w).
Proof. unfold spec_attempt. by intros ->. Qed.

(** A property of worlds that every attempted call keeps is kept by the
    batch. *)
Lemma spec_batch_keeps (P : world → Prop) op claims w :
  (∀ c w, c ∈ claims → validClaim c → P w → P (op c w).2) →
  P w → P (spec_batch op claims w).2.
Proof.
  revert w. induction claims as [|c claims IH]; intros w Hstep Hw; [done|].
  rewrite spec_batch_cons.
  assert (P (spec_attempt op c w).2) as Hw0.
  { destruct (util.ValidatePort (protocol c) (port c)) as [err|] eqn:Hvalid.
    - by rewrite (spec_attempt_invalid _ _ _ _ Hvalid).
    - rewrite spec_attempt_valid by done. apply Hstep; [by left|done..]. }
  destruct (spec_attempt op c w) as [r w0]. cbn in Hw0.
  specialize (IH w0). destruct (spec_batch op claims w0) as [errs w']. cbn in *.
  apply IH; [|done]. intros c' w1 Hc'. apply Hstep. by right.
Qed.

Lemma spec_batch_length op claims w :
  length (spec_batch op claims w).1 ≤ length claims.
Proof.
  revert w. induction claims as [|c claims IH]; intros w; [done|].
  rewrite spec_batch_cons. destruct (spec_attempt op c w) as [r w0].
  specialize (IH w0). destruct (spec_batch op claims w0) as [errs w']. cbn in *.
  rewrite length_app. destruct r; cbn; lia.
Qed.

(** X14. [handleService] calls no handler and returns no error for a Service
    that has no ports, and for one that neither exposes node ports nor has
    external IPs. *)
Theorem handleService_nothing_to_claim svc (h : handler) w :
  elems (kapi.Ports (kapi.Spec svc)) = []
  ∨ (util.ServiceTypeHasNodePort svc = false
     ∧ elems (kapi.ExternalIPs (kapi.Spec svc)) = []) →
  handleService svc h w = ([], w).
Proof.
  intros [Hports | [Htype Hips]]; unfold handleService, len.
  - rewrite Hports. by destruct (_ && _).
  - by rewrite Htype, Hips.
Qed.

(** X15. [handleService] returns at most one error for each claim that the
    Extractor derives from the Service, whatever the handler does. *)
Theorem handleService_errors_bounded svc (h : handler) w :
  length (handleService svc h w).1 ≤ length (Extractor svc).
Proof.
  rewrite (handleService_batch svc h
             (λ c, h (description c) (address c) (port c) (protocol c) svc)) by done.
  apply spec_batch_length.
Qed.

(** X16. The description of a NodePort claim and the description of an
    ExternalIP claim are never the same string, whatever the Services and the
    port names: the two kinds of claims never share an identity. *)
Theorem descriptions_of_kinds_differ portName1 svc1 portName2 svc2 :
  getDescription portName1 svc1 true ≠ getDescription portName2 svc2 false.
Proof.
  unfold getDescription. by do 2 destruct (bool_decide _).
Qed.

(** A relation between worlds that is reflexive, transitive and holds across
    every attempted call holds across the batch. *)
Lemma spec_batch_relates (R : world → world → Prop) op claims :
  (∀ w, R w w) →
  (∀ w1 w2 w3, R w1 w2 → R w2 w3 → R w1 w3) →
  (∀ c w, c ∈ claims → validClaim c → R w (op c w).2) →
  ∀ w, R w (spec_batch op claims w).2.
Proof.
  intros Hrefl Htrans Hstep w.
  apply (spec_batch_keeps (R w)); [|done].
  intros c w1 Hc Hvalid Hw1. eapply Htrans; [done|]. by apply Hstep.
Qed.

Lemma batch_open_opened_by claims w :
  opened_by claims w (spec_batch Ledger_open claims w).2.
Proof.
  apply spec_batch_relates.
  - intros w0. split; [done|]. by left.
  - intros w1 w2 w3 [Haddrs12 H12] [Haddrs23 H23]. split; [congruence|].
    intros lp. destruct (H23 lp) as [-> | (Hnone & c & Hc & -> & Hvalid & Hmat)].
    + apply H12.
    + destruct (H12 (claimIdentity c)) as [Hsame | [Hnone1 _]].
      * right. split; [congruence|]. exists c. split_and!; [done..|].
        unfold claimMaterialised, materialised in *. by rewrite <-Haddrs12.
      * right. split; [done|]. exists c. split_and!; [done..|].
        unfold claimMaterialised, materialised in *. by rewrite <-Haddrs12.
  - intros c w0 Hc Hvalid. unfold Ledger_open.
    destruct (open_watcher (description c) (address c) (port c) (protocol c)
                (ownerService (owner c)) w0) as [Haddrs [Hsame | (s & Hmat & Hnone & Hins)]].
    + split; [done|]. intros lp. left. by rewrite Hsame.
    + split; [done|]. intros lp. rewrite Hins.
      destruct (decide (claimIdentity c = lp)) as [<- | Hne].
      * right. split; [done|]. by exists c.
      * left. by rewrite lookup_insert_ne.
Qed.

Lemma batch_close_closed_by claims w :
  closed_by claims w (spec_batch Ledger_close claims w).2.
Proof.
  apply spec_batch_relates.
  - intros w0. split; [done|]. by left.
  - intros w1 w2 w3 [Haddrs12 H12] [Haddrs23 H23]. split; [congruence|].
    intros lp. destruct (H23 lp) as [-> | [Hnone Hc]]; [apply H12 | by right].
  - intros c w0 Hc Hvalid. unfold Ledger_close.
    destruct (close_watcher (description c) (address c) (port c) (protocol c)
                (ownerService (owner c)) w0) as [Haddrs [Hsame | Hdel]].
    + split; [done|]. intros lp. left. by rewrite Hsame.
    + split; [done|]. intros lp. rewrite Hdel.
      destruct (decide (claimIdentity c = lp)) as [<- | Hne].
      * right. split; [apply lookup_delete_eq | by exists c].
      * left. by rewrite lookup_delete_ne.
Qed.

Lemma claimMaterialised_addrs p p' c :
  localAddrSet p' = localAddrSet p → claimMaterialised p c → claimMaterialised p' c.
Proof. unfold claimMaterialised, materialised. by intros ->. Qed.

(** When the OS opens every port it is asked for, a batch of [open] ends
    with an entry for each of its valid, materialised claims. *)
Lemma batch_open_holds claims w c :
  (∀ lp o, ∃ s o', OpenLocalPort lp o = (inl s, o')) →
  c ∈ claims → validClaim c → claimMaterialised (watcher w) c →
  is_Some (portsMap (watcher (spec_batch Ledger_open claims w).2) !! claimIdentity c).
Proof.
  intros Hos. revert w. induction claims as [|c0 claims IH]; intros w Hc Hvalid Hmat.
  { by apply elem_of_nil in Hc. }
  rewrite spec_batch_cons.
  pose proof (batch_open_opened_by [c0] w) as [Haddrs0 _].
  rewrite spec_batch_cons in Haddrs0.
  assert (c = c0 → is_Some (portsMap (watcher (spec_attempt Ledger_open c0 w).2)
                              !! claimIdentity c)) as Hhead.
  { intros ->. rewrite spec_attempt_valid by done. unfold Ledger_open.
    rewrite open_materialised by done. fold (claimIdentity c0).
    destruct (portsMap (watcher w) !! claimIdentity c0) as [s|] eqn:Hheld; cbn.
    - by rewrite Hheld.
    - destruct (Hos (claimIdentity c0) (os w)) as (s & o' & ->). cbn.
      by rewrite lookup_insert_eq. }
  destruct (spec_attempt Ledger_open c0 w) as [r w0]. cbn in *.
  pose proof (batch_open_opened_by claims w0) as [_ Hkeys].
  specialize (IH w0). destruct (spec_batch Ledger_open claims w0) as [errs w']. cbn in *.
  apply elem_of_cons in Hc as [Hc | Hc].
  - destruct (Hhead Hc) as [s Hs].
    destruct (Hkeys (claimIdentity c)) as [-> | [Hnone _]]; [by eexists | congruence].
  - apply IH; [done..|]. by apply (claimMaterialised_addrs (watcher w)).
Qed.

(** When the OS closes every socket it is asked to, a batch of [close] ends
    without an entry for any of its valid, materialised claims. *)
Lemma batch_close_releases claims w c :
  (∀ s o, ∃ o', CloseSocket s o = (None, o')) →
  c ∈ claims → validClaim c → claimMaterialised (watcher w) c →
  portsMap (watcher (spec_batch Ledger_close claims w).2) !! claimIdentity c = None.
Proof.
  intros Hos. revert w. induction claims as [|c0 claims IH]; intros w Hc Hvalid Hmat.
  { by apply elem_of_nil in Hc. }
  rewrite spec_batch_cons.
  pose proof (batch_close_closed_by [c0] w) as [Haddrs0 _].
  rewrite spec_batch_cons in Haddrs0.
  assert (c = c0 → portsMap (watcher (spec_attempt Ledger_close c0 w).2)
                     !! claimIdentity c = None) as Hhead.
  { intros ->. rewrite spec_attempt_valid by done. unfold Ledger_close.
    rewrite close_materialised by done. fold (claimIdentity c0).
    destruct (portsMap (watcher w) !! claimIdentity c0) as [s|] eqn:Hheld; cbn; [|done].
    destruct (Hos s (os w)) as (o' & ->). cbn. apply lookup_delete_eq. }
  destruct (spec_attempt Ledger_close c0 w) as [r w0]. cbn in *.
  pose proof (batch_close_closed_by claims w0) as [_ Hkeys].
  specialize (IH w0). destruct (spec_batch Ledger_close claims w0) as [errs w']. cbn in *.
  apply elem_of_cons in Hc as [Hc | Hc].
  - destruct (Hkeys (claimIdentity c)) as [-> | [Hnone _]]; [by apply Hhead | done].
  - apply IH; [done..|]. by apply (claimMaterialised_addrs (watcher w)).
Qed.

Lemma watcher_eq (p p' : portClaimWatcher) :
  localAddrSet p' = localAddrSet p → portsMap p' = portsMap p → p' = p.
Proof. destruct p, p'. cbn. by intros -> ->. Qed.

(** X17. When the OS opens every port it is asked for, after
    [addServicePortClaim] the ledger holds every valid, materialised claim of
    the Service: an error on one claim does not stop the others. *)
Theorem added_claims_are_held svc w c :
  (∀ lp o, ∃ s o', OpenLocalPort lp o = (inl s, o')) →
  c ∈ Extractor svc → validClaim c → claimMaterialised (watcher w) c →
  is_Some (portsMap (watcher (addServicePortClaim portClaimWatcher_handler svc w).2)
             !! claimIdentity c).
Proof.
  intros Hos Hc Hvalid Hmat. rewrite addServicePortClaim_spec.
  by apply batch_open_holds.
Qed.

(** X18. When the OS closes every socket it is asked to and no identity of
    the Service's claims is held, [addServicePortClaim] followed by
    [deleteServicePortClaim] for the same Service leaves the watcher as it
    was, whatever the calls of [open] returned. *)
Theorem add_then_delete_restores_watcher svc w :
  (∀ s o, ∃ o', CloseSocket s o = (None, o')) →
  (∀ c, c ∈ Extractor svc → portsMap (watcher w) !! claimIdentity c = None) →
  watcher (deleteServicePortClaim portClaimWatcher_handler svc
             (addServicePortClaim portClaimWatcher_handler svc w).2).2
  = watcher w.
Proof.
  intros Hos Habsent.
  rewrite addServicePortClaim_spec, deleteServicePortClaim_spec.
  unfold spec_Added, spec_Deleted.
  pose proof (batch_open_opened_by (Extractor svc) w) as [Haddrs1 Hopened].
  set (w1 := (spec_batch Ledger_open (Extractor svc) w).2) in *.
  pose proof (batch_close_closed_by (Extractor svc) w1) as [Haddrs2 Hclosed].
  pose proof (batch_close_releases (Extractor svc) w1) as Hreleased.
  set (w2 := (spec_batch Ledger_close (Extractor svc) w1).2) in *.
  apply watcher_eq; [congruence|]. apply map_eq. intros lp.
  destruct (Hopened lp) as [Hsame | (Hnone & c & Hc & -> & Hvalid & Hmat)].
  - destruct (Hclosed lp) as [-> | (-> & c & Hc & ->)]; [done|].
    by rewrite Habsent.
  - rewrite Hnone. apply Hreleased; [done..|].
    by apply (claimMaterialised_addrs (watcher w)).
Qed.

(** X19. [deleteServicePortClaim] for a Service none of whose claims is held
    changes nothing in the world: no entry is removed and the OS is not
    called. *)
Theorem delete_of_unheld_service_changes_nothing svc w :
  (∀ c, c ∈ Extractor svc → portsMap (watcher w) !! claimIdentity c = None) →
  (deleteServicePortClaim portClaimWatcher_handler svc w).2 = w.
Proof.
  intros Habsent. rewrite deleteServicePortClaim_spec. unfold spec_Deleted.
  apply (spec_batch_keeps (λ w', w' = w)); [|done].
  intros c w' Hc _ ->. unfold Ledger_close.
  pose proof (close_outcome_holds (description c) (address c) (port c) (protocol c)
                (ownerService (owner c)) w) as Hout.
  destruct (close _ _ _ _ _ w) as [r w']. cbn in Hout |- *.
  destruct Hout as [| | | |s msg os' _ Hheld _|s os' _ Hheld _]; try done.
  - pose proof (Habsent c Hc) as Hnone. unfold claimIdentity in Hnone. congruence.
  - pose proof (Habsent c Hc) as Hnone. unfold claimIdentity in Hnone. congruence.
Qed.

(** X20. [addServicePortClaim] for a Service whose valid, materialised claims
    are all held already leaves the watcher and the OS as they were: a
    repeated Added event opens nothing. *)
Theorem add_of_held_service_opens_nothing svc w :
  (∀ c, c ∈ Extractor svc → validClaim c → claimMaterialised (watcher w) c →
        is_Some (portsMap (watcher w) !! claimIdentity c)) →
  watcher (addServicePortClaim portClaimWatcher_handler svc w).2 = watcher w
  ∧ os (addServicePortClaim portClaimWatcher_handler svc w).2 = os w.
Proof.
  intros Hheld. rewrite addServicePortClaim_spec. unfold spec_Added.
  apply (spec_batch_keeps (λ w', watcher w' = watcher w ∧ os w' = os w)); [|done].
  intros c w1 Hc Hvalid [Hwatcher Hos]. unfold Ledger_open.
  pose proof (open_outcome_holds (description c) (address c) (port c) (protocol c)
                (ownerService (owner c)) w1) as Hout.
  destruct (open _ _ _ _ _ w1) as [r w']. cbn in Hout |- *.
  destruct Hout as [| | | | |msg os' Hmat Hnone _|s os' Hmat Hnone _]; try done.
  - rewrite Hwatcher in Hmat, Hnone. destruct (Hheld c Hc Hvalid Hmat) as [s Hs].
    unfold claimIdentity in Hs. congruence.
  - rewrite Hwatcher in Hmat, Hnone. destruct (Hheld c Hc Hvalid Hmat) as [s' Hs].
    unfold claimIdentity in Hs. congruence.
Qed.

Lemma addServicePortClaim_reachable svc w :
  reachable w → reachable (addServicePortClaim portClaimWatcher_handler svc w).2.
Proof.
  intros Hreach. rewrite addServicePortClaim_spec.
  apply (spec_batch_keeps reachable); [|done].
  intros c w1 _ _ Hw1. by apply reach_open.
Qed.

Lemma deleteServicePortClaim_reachable svc w :
  reachable w → reachable (deleteServicePortClaim portClaimWatcher_handler svc w).2.
Proof.
  intros Hreach. rewrite deleteServicePortClaim_spec.
  apply (spec_batch_keeps reachable); [|done].
  intros c w1 _ _ Hw1. by apply reach_close.
Qed.

Lemma updateServicePortClaim_reachable oldSvc newSvc w :
  reachable w →
  reachable (updateServicePortClaim portClaimWatcher_handler oldSvc newSvc w).2.
Proof.
  intros Hreach. unfold updateServicePortClaim. destruct (_ && _); [done|].
  steps.
  pose proof (deleteServicePortClaim_reachable oldSvc w Hreach) as Hdel.
  destruct (deleteServicePortClaim portClaimWatcher_handler oldSvc w) as [deleted w1].
  steps. pose proof (addServicePortClaim_reachable newSvc w1 Hdel) as Hadd.
  by destruct (addServicePortClaim portClaimWatcher_handler newSvc w1) as [added w2].
Qed.

(** X21. Whatever Service events the registered handlers are given, in
    whatever order, the world they end in is reachable by calls of [open]
    and [close]: the invariants of reachable worlds hold throughout a run of
    the node. *)
Theorem handleEvents_reachable evs w :
  reachable w → reachable (handleEvents portClaimWatcher_handler evs w).2.
Proof.
  revert w. induction evs as [|ev evs IH]; intros w Hreach; [done|].
  cbn [handleEvents]. steps.
  assert (reachable (handleEvent portClaimWatcher_handler ev w).2) as Hev.
  { destruct ev as [svc | oldSvc newSvc | svc]; cbn [handleEvent];
      unfold AddFunc, UpdateFunc, DeleteFunc; steps.
    - pose proof (addServicePortClaim_reachable svc w Hreach) as H.
      by destruct (addServicePortClaim portClaimWatcher_handler svc w).
    - pose proof (updateServicePortClaim_reachable oldSvc newSvc w Hreach) as H.
      by destruct (updateServicePortClaim portClaimWatcher_handler oldSvc newSvc w).
    - pose proof (deleteServicePortClaim_reachable svc w Hreach) as H.
      by destruct (deleteServicePortClaim portClaimWatcher_handler svc w). }
  destruct (handleEvent portClaimWatcher_handler ev w) as [lines w1]. steps.
  specialize (IH w1 Hev).
  by destruct (handleEvents portClaimWatcher_handler evs w1) as [lines' w2].
Qed.

Lemma osCalls_app tr1 tr2 : osCalls (tr1 ++ tr2) = osCalls tr1 ++ osCalls tr2.
Proof. apply List.filter_app. Qed.

(** X23. [open] asks the OS to open a port exactly when the claim is
    materialised and its identity is not held, once and for that identity;
    it never asks the OS to close a socket. *)
Theorem open_calls_os_iff_new desc ip port protocol svc w :
  osCalls (trace (open desc ip port protocol svc w).2)
  = osCalls (trace w)
    ++ if decide (materialised (watcher w) ip protocol
                  ∧ portsMap (watcher w) !! identity desc ip port protocol = None)
       then [OsOpen (identity desc ip port protocol)]
       else [].
Proof.
  pose proof (open_outcome_holds desc ip port protocol svc w) as Hout.
  destruct (open desc ip port protocol svc w) as [r w']. cbn in Hout |- *.
  destruct Hout as [Hne Hnone|Hpass Hsctp|Hpass Htcp Hudp _|e Hpass Hproto Hnew
                   |c Hmat Hheld|msg os' Hmat Habsent _|c os' Hmat Habsent _];
    cbn; rewrite ?osCalls_app; cbn.
  - rewrite decide_False, app_nil_r; [done|].
    intros [[_ [-> | [Hlocal _]]] _]; [done|]. rewrite Hnone in Hlocal. by destruct Hlocal.
  - rewrite decide_False, app_nil_r; [done|].
    intros [[[-> | ->] _] _]; discriminate.
  - rewrite decide_False, !app_nil_r; [done|].
    intros [[[-> | ->] _] _]; done.
  - rewrite decide_False, !app_nil_r; [done|].
    intros [[Hp Haddr] _].
    rewrite NewLocalPort_identity in Hnew; [done|done|].
    destruct Haddr as [? | [_ ?]]; auto.
  - rewrite decide_False, app_nil_r; [done|]. intros [_ Hnone]. congruence.
  - rewrite decide_True, app_nil_r by done. done.
  - by rewrite decide_True by done.
Qed.

(** X24. [close] asks the OS to close a socket exactly when the claim is
    materialised and its identity is held, once and for the socket of the
    entry; it never asks the OS to open a port. *)
Theorem close_calls_os_iff_held desc ip port protocol svc w :
  osCalls (trace (close desc ip port protocol svc w).2)
  = osCalls (trace w)
    ++ match portsMap (watcher w) !! identity desc ip port protocol with
       | Some c => if decide (materialised (watcher w) ip protocol)
                   then [OsClose c] else []
       | None => []
       end.
Proof.
  pose proof (close_outcome_holds desc ip port protocol svc w) as Hout.
  destruct (close desc ip port protocol svc w) as [r w']. cbn in Hout |- *.
  destruct Hout as [Htcp Hudp|Hne Hnone|e Hpass Hproto Hnew|Hmat Habsent
                   |c msg os' Hmat Hheld _|c os' Hmat Hheld _];
    cbn; rewrite ?osCalls_app; cbn.
  - destruct (portsMap (watcher w) !! _); [|by rewrite app_nil_r].
    rewrite decide_False, app_nil_r; [done|]. intros [[-> | ->] _]; done.
  - destruct (portsMap (watcher w) !! _); [|by rewrite app_nil_r].
    rewrite decide_False, app_nil_r; [done|].
    intros [_ [-> | [Hlocal _]]]; [done|]. rewrite Hnone in Hlocal. by destruct Hlocal.
  - destruct (portsMap (watcher w) !! _); [|by rewrite app_nil_r].
    rewrite decide_False, app_nil_r; [done|].
    intros [Hp Haddr]. rewrite NewLocalPort_identity in Hnew; [done|done|].
    destruct Haddr as [? | [_ ?]]; auto.
  - by rewrite Habsent, app_nil_r.
  - by rewrite Hheld, decide_True by done.
  - by rewrite Hheld, decide_True by done.
Qed.

Lemma string_app_cancel_nil (s t : string) : s = s +:+ t → t = "".
Proof.
  intros Heq. rewrite <-(string_app_nil_r s) in Heq at 1.
  by apply (inj (String.app s)) in Heq.
Qed.

Lemma getDescription_portName_inj portName1 portName2 svc nodePort :
  getDescription portName1 svc nodePort = getDescription portName2 svc nodePort →
  portName1 = portName2.
Proof.
  unfold getDescription.
  set (prefix := if nodePort then nodePortDescr else externalPortDescr).
  set (svcName := NamespacedName_String (kapi.Namespace svc) (kapi.Name svc)).
  destruct (decide (portName1 = "")) as [-> | Hne1];
    destruct (decide (portName2 = "")) as [-> | Hne2]; [done|..].
  - rewrite (bool_decide_eq_false_2 (String.length portName2 = 0))
      by (by rewrite string_length_zero).
    cbn. intros Heq. do 2 apply (inj (String.app _)) in Heq.
    by apply string_app_cancel_nil in Heq.
  - rewrite (bool_decide_eq_false_2 (String.length portName1 = 0))
      by (by rewrite string_length_zero).
    cbn. intros Heq. do 2 apply (inj (String.app _)) in Heq.
    symmetry in Heq. by apply string_app_cancel_nil in Heq.
  - rewrite !bool_decide_eq_false_2 by (by rewrite string_length_zero).
    intros Heq. do 3 apply (inj (String.app _)) in Heq.
    by injection Heq.
Qed.

(** X25. For one Service and one kind of claim, ports with different names
    get different descriptions: the port name, when there is one, tells the
    claims of a multi-port Service apart. *)
Theorem port_names_distinguish_descriptions portName1 portName2 svc nodePort :
  portName1 ≠ portName2 →
  getDescription portName1 svc nodePort ≠ getDescription portName2 svc nodePort.
Proof. intros Hne Heq. by apply Hne, (getDescription_portName_inj _ _ svc nodePort). Qed.

End node.

(** ** The update handler and a change of the Service type *)

(** C9. Service ns1/svcA of type NodePort and the same Service of type
    ClusterIP have equal Ports (the nodePort value is still there) and equal
    ExternalIPs, while the first yields one claim and the second none.
    [updateServicePortClaim] from the first to the second returns no error
    in the world it was called in, whatever the implementation of the handler
    interface, so no method of the ledger is called; in the run that starts
    with the Added event of the first Service, the reservation that this
    event created is still held after the update. *)
Theorem update_misses_service_type_change :
  ∃ oldSvc newSvc,
    DeepEqual (kapi.Ports (kapi.Spec oldSvc)) (kapi.Ports (kapi.Spec newSvc)) = true
    ∧ DeepEqual (kapi.ExternalIPs (kapi.Spec oldSvc)) (kapi.ExternalIPs (kapi.Spec newSvc))
      = true
    ∧ util.ServiceTypeHasNodePort oldSvc = true
    ∧ util.ServiceTypeHasNodePort newSvc = false
    ∧ Extractor oldSvc
      = [ {| description := "nodePort for ns1/svcA"; address := ""; port := 30080;
             protocol := "TCP";
             owner := {| refNamespace := "ns1"; refName := "svcA" |} |} ]
    ∧ Extractor newSvc = []
    ∧ (∀ (OS Closeable : Type) (portHandler : @localPortHandler OS Closeable) w,
          updateServicePortClaim portHandler oldSvc newSvc w = ([], w))
    ∧ let portHandler :=
        portClaimWatcher_handler fake.OpenLocalPort fake.CloseSocket fake.ParseIP in
      let w1 := (addServicePortClaim portHandler oldSvc (initial fake.nodeAddrs 0%nat)).2 in
      portsMap (watcher w1) !! identity "nodePort for ns1/svcA" "" 30080 "TCP" = Some 0%nat
      ∧ updateServicePortClaim portHandler oldSvc newSvc w1 = ([], w1)
      ∧ trace w1 = [OsOpen (identity "nodePort for ns1/svcA" "" 30080 "TCP")].
Proof.
  exists fake.svcA, fake.svcA_clusterIP.
  assert (∀ (OS Closeable : Type) (portHandler : @localPortHandler OS Closeable) w,
             updateServicePortClaim portHandler fake.svcA fake.svcA_clusterIP w = ([], w))
    as Hupdate.
  { intros. unfold updateServicePortClaim. reflexivity. }
  split_and!; [done..|].
  intros portHandler w1. split_and!; [by vm_compute|apply Hupdate|by vm_compute].
Qed.

(** ** The theorems at concrete inputs *)

Lemma open_duplicate_claim_witness :
  let w := (open fake.OpenLocalPort fake.ParseIP "nodePort for ns1/svcA" "" 30080 "TCP"
              fake.svcA (initial fake.nodeAddrs 0%nat)).2 in
  reachable fake.OpenLocalPort fake.CloseSocket fake.ParseIP w
  ∧ portsMap (watcher w) !! identity "nodePort for ns1/svcA" "" 30080 "TCP" = Some 0%nat
  ∧ open fake.OpenLocalPort fake.ParseIP "nodePort for ns1/svcA" "" 30080 "TCP" fake.svcA w
    = (Some (ErrOpenAgain "ns1" "svcA" 30080), w).
Proof.
  intros w.
  assert (reachable fake.OpenLocalPort fake.CloseSocket fake.ParseIP w) as Hreach.
  { apply reach_open, reach_initial. }
  assert (portsMap (watcher w) !! identity "nodePort for ns1/svcA" "" 30080 "TCP"
          = Some 0%nat) as Hheld.
  { vm_compute. reflexivity. }
  split; [exact Hreach|]. split; [exact Hheld|].
  exact (open_duplicate_claim fake.OpenLocalPort fake.CloseSocket fake.ParseIP w
           "nodePort for ns1/svcA" "" 30080 "TCP" fake.svcA 0%nat Hreach Hheld).
Defined.

Lemma update_is_delete_then_add_witness :
  let portHandler :=
    portClaimWatcher_handler fake.OpenLocalPort fake.CloseSocket fake.ParseIP in
  let w := (addServicePortClaim portHandler fake.svcA (initial fake.nodeAddrs 0%nat)).2 in
  (kapi.Ports (kapi.Spec fake.svcA) ≠ kapi.Ports (kapi.Spec fake.svcA_external)
   ∨ kapi.ExternalIPs (kapi.Spec fake.svcA) ≠ kapi.ExternalIPs (kapi.Spec fake.svcA_external))
  ∧ updateServicePortClaim portHandler fake.svcA fake.svcA_external w
    = spec_Updated_full fake.OpenLocalPort fake.CloseSocket fake.ParseIP
        fake.svcA fake.svcA_external w.
Proof.
  intros portHandler w.
  assert (kapi.Ports (kapi.Spec fake.svcA) ≠ kapi.Ports (kapi.Spec fake.svcA_external)
          ∨ kapi.ExternalIPs (kapi.Spec fake.svcA)
            ≠ kapi.ExternalIPs (kapi.Spec fake.svcA_external)) as Hdiff.
  { right. simpl. discriminate. }
  split; [exact Hdiff|].
  exact (proj2 (update_is_delete_then_add fake.OpenLocalPort fake.CloseSocket fake.ParseIP
                  fake.svcA fake.svcA_external w Hdiff)).
Defined.

Lemma close_release_failure_witness :
  let w := (open fake.OpenLocalPort fake.ParseIP "nodePort for ns1/svcA" "" 30080 "TCP"
              fake.svcA (initial fake.nodeAddrs 0%nat)).2 in
  reachable fake.OpenLocalPort fake.CloseSocket_broken fake.ParseIP w
  ∧ portsMap (watcher w) !! identity "nodePort for ns1/svcA" "" 30080 "TCP" = Some 0%nat
  ∧ fake.CloseSocket_broken 0%nat (os w) = (Some "close: bad file descriptor", 1%nat)
  ∧ ∃ w', close fake.CloseSocket_broken fake.ParseIP "nodePort for ns1/svcA" "" 30080 "TCP"
            fake.svcA w
          = (Some (ErrClosing "ns1" "svcA" 30080 (ErrOS "close: bad file descriptor")), w')
          ∧ watcher w' = watcher w
          ∧ portsMap (watcher w') !! identity "nodePort for ns1/svcA" "" 30080 "TCP"
            = Some 0%nat.
Proof.
  intros w.
  assert (reachable fake.OpenLocalPort fake.CloseSocket_broken fake.ParseIP w) as Hreach.
  { apply reach_open, reach_initial. }
  assert (portsMap (watcher w) !! identity "nodePort for ns1/svcA" "" 30080 "TCP"
          = Some 0%nat) as Hheld.
  { vm_compute. reflexivity. }
  assert (fake.CloseSocket_broken 0%nat (os w) = (Some "close: bad file descriptor", 1%nat))
    as Hbroken.
  { vm_compute. reflexivity. }
  split; [exact Hreach|]. split; [exact Hheld|]. split; [exact Hbroken|].
  exact (proj1 (close_release_failure fake.OpenLocalPort fake.CloseSocket_broken fake.ParseIP
                  w "nodePort for ns1/svcA" "" 30080 "TCP" fake.svcA 0%nat Hreach Hheld)
           "close: bad file descriptor" 1%nat Hbroken).
Defined.

Lemma description_distinguishes_claims_witness :
  let w := initial fake.nodeAddrs 0%nat in
  let w1 := (open fake.OpenLocalPort fake.ParseIP "nodePort for ns1/svcA" "" 30080 "TCP"
               fake.svcA w).2 in
  "nodePort for ns1/svcA" ≠ "nodePort for ns2/svcB"
  ∧ portsMap (watcher w) !! identity "nodePort for ns2/svcB" "" 30080 "TCP" = None
  ∧ open fake.OpenLocalPort fake.ParseIP "nodePort for ns1/svcA" "" 30080 "TCP" fake.svcA w
    = (None, w1)
  ∧ materialised fake.ParseIP (watcher w) "" "TCP"
  ∧ fake.OpenLocalPort (identity "nodePort for ns2/svcB" "" 30080 "TCP") (os w1)
    = (inl 1%nat, 2%nat)
  ∧ ¬ isDuplicateClaim
        (open fake.OpenLocalPort fake.ParseIP "nodePort for ns2/svcB" "" 30080 "TCP"
           fake.svcA w1).1
  ∧ ∃ c1 w2,
      open fake.OpenLocalPort fake.ParseIP "nodePort for ns2/svcB" "" 30080 "TCP"
        fake.svcA w1 = (None, w2)
      ∧ portsMap (watcher w) !! identity "nodePort for ns1/svcA" "" 30080 "TCP" = None
      ∧ portsMap (watcher w2)
        = <[identity "nodePort for ns2/svcB" "" 30080 "TCP" := 1%nat]>
            (<[identity "nodePort for ns1/svcA" "" 30080 "TCP" := c1]>
               (portsMap (watcher w)))
      ∧ portsMap (watcher w2) !! identity "nodePort for ns1/svcA" "" 30080 "TCP" = Some c1
      ∧ portsMap (watcher w2) !! identity "nodePort for ns2/svcB" "" 30080 "TCP"
        = Some 1%nat.
Proof.
  intros w w1.
  assert ("nodePort for ns1/svcA" ≠ "nodePort for ns2/svcB") as Hdesc by discriminate.
  assert (portsMap (watcher w) !! identity "nodePort for ns2/svcB" "" 30080 "TCP" = None)
    as Habsent by reflexivity.
  assert (open fake.OpenLocalPort fake.ParseIP "nodePort for ns1/svcA" "" 30080 "TCP"
            fake.svcA w = (None, w1)) as Hopen by reflexivity.
  assert (materialised fake.ParseIP (watcher w) "" "TCP") as Hmat.
  { split; left; reflexivity. }
  assert (fake.OpenLocalPort (identity "nodePort for ns2/svcB" "" 30080 "TCP") (os w1)
          = (inl 1%nat, 2%nat)) as Hos by reflexivity.
  pose proof (description_distinguishes_claims fake.OpenLocalPort fake.ParseIP w w1
                "nodePort for ns1/svcA" "nodePort for ns2/svcB" "" 30080 "TCP"
                fake.svcA fake.svcA Hdesc Habsent Hopen) as (_ & Hnodup & Htwo).
  split; [exact Hdesc|]. split; [exact Habsent|]. split; [exact Hopen|].
  split; [exact Hmat|]. split; [exact Hos|]. split; [exact Hnodup|].
  exact (Htwo 1%nat 2%nat Hmat Hos).
Defined.

Lemma open_close_round_trip_witness :
  let w := initial fake.nodeAddrs 0%nat in
  ("UDP" = kapi.ProtocolTCP ∨ "UDP" = kapi.ProtocolUDP)
  ∧ ("10.0.0.1" = "" ∨ is_Some (fake.ParseIP "10.0.0.1"))
  ∧ portsMap (watcher w) !! identity "externalIP for ns1/svcA" "10.0.0.1" 53 "UDP" = None
  ∧ fake.OpenLocalPort (identity "externalIP for ns1/svcA" "10.0.0.1" 53 "UDP") (os w)
    = (inl 0%nat, 1%nat)
  ∧ fake.CloseSocket 0%nat 1%nat = (None, 1%nat)
  ∧ ∃ w1 w2,
      open fake.OpenLocalPort fake.ParseIP "externalIP for ns1/svcA" "10.0.0.1" 53 "UDP"
        fake.svcA_external w = (None, w1)
      ∧ close fake.CloseSocket fake.ParseIP "externalIP for ns1/svcA" "10.0.0.1" 53 "UDP"
          fake.svcA_external w1 = (None, w2)
      ∧ watcher w2 = watcher w
      ∧ portsMap (watcher w2) !! identity "externalIP for ns1/svcA" "10.0.0.1" 53 "UDP"
        = None
      ∧ ("10.0.0.1" = "" ∨ is_Some (localAddrSet (watcher w) !! "10.0.0.1") →
         portsMap (watcher w1) !! identity "externalIP for ns1/svcA" "10.0.0.1" 53 "UDP"
         = Some 0%nat
         ∧ trace w2
           = trace w ++ [OsOpen (identity "externalIP for ns1/svcA" "10.0.0.1" 53 "UDP");
                         OsClose 0%nat]).
Proof.
  intros w.
  assert ("UDP" = kapi.ProtocolTCP ∨ "UDP" = kapi.ProtocolUDP) as Hproto.
  { right. reflexivity. }
  assert ("10.0.0.1" = "" ∨ is_Some (fake.ParseIP "10.0.0.1")) as Hip.
  { right. exists utilnet.IsIPv4. reflexivity. }
  assert (portsMap (watcher w) !! identity "externalIP for ns1/svcA" "10.0.0.1" 53 "UDP"
          = None) as Habsent by reflexivity.
  assert (fake.OpenLocalPort (identity "externalIP for ns1/svcA" "10.0.0.1" 53 "UDP") (os w)
          = (inl 0%nat, 1%nat)) as Hopen by reflexivity.
  assert (fake.CloseSocket 0%nat 1%nat = (None, 1%nat)) as Hclose by reflexivity.
  split; [exact Hproto|]. split; [exact Hip|]. split; [exact Habsent|].
  split; [exact Hopen|]. split; [exact Hclose|].
  exact (open_close_round_trip fake.OpenLocalPort fake.CloseSocket fake.ParseIP w
           "externalIP for ns1/svcA" "10.0.0.1" 53 "UDP" fake.svcA_external
           0%nat 1%nat 1%nat Hproto Hip Habsent Hopen Hclose).
Defined.

Lemma close_untracked_witness :
  let w := initial (OS := nat) (Closeable := nat) fake.nodeAddrs 0%nat in
  materialised fake.ParseIP (watcher w) "10.0.0.1" "TCP"
  ∧ portsMap (watcher w) !! identity "externalIP for ns1/svcA" "10.0.0.1" 8080 "TCP" = None
  ∧ close fake.CloseSocket fake.ParseIP "externalIP for ns1/svcA" "10.0.0.1" 8080 "TCP"
      fake.svcA_external w
    = (Some (ErrNeverOpened "ns1" "svcA" 8080), w).
Proof.
  intros w.
  assert (materialised fake.ParseIP (watcher w) "10.0.0.1" "TCP") as Hmat.
  { split; [left; reflexivity|]. right. split.
    - exists ([10; 0; 0; 1], [255; 255; 255; 0])%Z. vm_compute. reflexivity.
    - exists utilnet.IsIPv4. reflexivity. }
  assert (portsMap (watcher w) !! identity "externalIP for ns1/svcA" "10.0.0.1" 8080 "TCP"
          = None) as Habsent by reflexivity.
  split; [exact Hmat|]. split; [exact Habsent|].
  exact (close_untracked fake.CloseSocket fake.ParseIP w "externalIP for ns1/svcA"
           "10.0.0.1" 8080 "TCP" fake.svcA_external Hmat Habsent).
Defined.

Lemma update_equal_fields_noop_witness :
  let portHandler :=
    portClaimWatcher_handler fake.OpenLocalPort fake.CloseSocket fake.ParseIP in
  let w := (addServicePortClaim portHandler fake.svcA (initial fake.nodeAddrs 0%nat)).2 in
  DeepEqual (kapi.Ports (kapi.Spec fake.svcA)) (kapi.Ports (kapi.Spec fake.svcA_clusterIP))
  = true
  ∧ DeepEqual (kapi.ExternalIPs (kapi.Spec fake.svcA))
      (kapi.ExternalIPs (kapi.Spec fake.svcA_clusterIP)) = true
  ∧ updateServicePortClaim portHandler fake.svcA fake.svcA_clusterIP w = ([], w).
Proof.
  intros portHandler w.
  assert (DeepEqual (kapi.Ports (kapi.Spec fake.svcA))
            (kapi.Ports (kapi.Spec fake.svcA_clusterIP)) = true) as Hports.
  { vm_compute. reflexivity. }
  assert (DeepEqual (kapi.ExternalIPs (kapi.Spec fake.svcA))
            (kapi.ExternalIPs (kapi.Spec fake.svcA_clusterIP)) = true) as Hips.
  { vm_compute. reflexivity. }
  split; [exact Hports|]. split; [exact Hips|].
  exact (update_equal_fields_noop portHandler fake.svcA fake.svcA_clusterIP w Hports Hips).
Defined.

(** ** The namespaces of the tests *)

(** X22. The labels of [newNamespaceMeta] are the additional labels together
    with the label "name" of the namespace: every additional label is there
    with its value, also one for the key "name", which then takes the place
    of the namespace's own. *)
Theorem newNamespaceMeta_labels namespace (additionalLabels : gmap string string) :
  ovn.Labels (ovn.newNamespaceMeta namespace additionalLabels)
  = additionalLabels ∪ {[ "name" := namespace ]}.
Proof.
  unfold ovn.newNamespaceMeta. cbn.
  apply (map_fold_weak_ind (λ labels m, labels = m ∪ {[ "name" := namespace ]})).
  - by rewrite (left_id_L ∅ (∪)).
  - intros k v m labels _ ->. by rewrite insert_union_l.
Qed.

(** ** The further properties at concrete inputs *)

Lemma foreign_address_ignored_witness :
  let w := initial (OS := nat) (Closeable := nat) fake.nodeAddrs 0%nat in
  "192.0.2.7" ≠ ""
  ∧ localAddrSet (watcher w) !! "192.0.2.7" = None
  ∧ open fake.OpenLocalPort fake.ParseIP "externalIP for ns1/svcA" "192.0.2.7" 8080 "TCP"
      fake.svcA w = (None, w)
  ∧ close fake.CloseSocket fake.ParseIP "externalIP for ns1/svcA" "192.0.2.7" 8080 "TCP"
      fake.svcA w = (None, w).
Proof.
  intros w.
  assert ("192.0.2.7" ≠ "") as Hne by discriminate.
  assert (localAddrSet (watcher w) !! "192.0.2.7" = None) as Hnone.
  { vm_compute. reflexivity. }
  split; [exact Hne|]. split; [exact Hnone|].
  exact (foreign_address_ignored fake.OpenLocalPort fake.CloseSocket fake.ParseIP
           "externalIP for ns1/svcA" "192.0.2.7" 8080 "TCP" fake.svcA w Hne Hnone).
Defined.

Lemma unknown_protocol_open_fails_close_succeeds_witness :
  let w := initial (OS := nat) (Closeable := nat) fake.nodeAddrs 0%nat in
  passesFilter (watcher w) ""
  ∧ "DCCP" ≠ kapi.ProtocolTCP ∧ "DCCP" ≠ kapi.ProtocolUDP ∧ "DCCP" ≠ kapi.ProtocolSCTP
  ∧ open fake.OpenLocalPort fake.ParseIP "nodePort for ns1/svcA" "" 30080 "DCCP"
      fake.svcA w
    = (Some (ErrUnknownProtocol "DCCP"),
       {| watcher := watcher w; os := os w;
          trace := trace w ++ [Eventf "ns1" "svcA" 30080 (ErrUnknownProtocol "DCCP")] |})
  ∧ close fake.CloseSocket fake.ParseIP "nodePort for ns1/svcA" "" 30080 "DCCP"
      fake.svcA w = (None, w).
Proof.
  intros w.
  assert (passesFilter (watcher w) "") as Hpass by (left; reflexivity).
  assert ("DCCP" ≠ kapi.ProtocolTCP) as Htcp by discriminate.
  assert ("DCCP" ≠ kapi.ProtocolUDP) as Hudp by discriminate.
  assert ("DCCP" ≠ kapi.ProtocolSCTP) as Hsctp by discriminate.
  split; [exact Hpass|]. split; [exact Htcp|]. split; [exact Hudp|]. split; [exact Hsctp|].
  exact (unknown_protocol_open_fails_close_succeeds fake.OpenLocalPort fake.CloseSocket
           fake.ParseIP "nodePort for ns1/svcA" "" 30080 "DCCP" fake.svcA w
           Hpass Htcp Hudp Hsctp).
Defined.

Lemma open_refused_by_os_witness :
  let w := initial (OS := nat) (Closeable := nat) fake.nodeAddrs 0%nat in
  materialised fake.ParseIP (watcher w) "" "TCP"
  ∧ portsMap (watcher w) !! identity "nodePort for ns1/svcA" "" 30080 "TCP" = None
  ∧ fake.OpenLocalPort_busy (identity "nodePort for ns1/svcA" "" 30080 "TCP") (os w)
    = (inr "bind: address already in use", 0%nat)
  ∧ open fake.OpenLocalPort_busy fake.ParseIP "nodePort for ns1/svcA" "" 30080 "TCP"
      fake.svcA w
    = (Some (ErrOS "bind: address already in use"),
       {| watcher := watcher w; os := 0%nat;
          trace := trace w ++ [OsOpen (identity "nodePort for ns1/svcA" "" 30080 "TCP");
                               Eventf "ns1" "svcA" 30080
                                 (ErrOS "bind: address already in use")] |}).
Proof.
  intros w.
  assert (materialised fake.ParseIP (watcher w) "" "TCP") as Hmat.
  { split; left; reflexivity. }
  assert (portsMap (watcher w) !! identity "nodePort for ns1/svcA" "" 30080 "TCP" = None)
    as Habsent by reflexivity.
  assert (fake.OpenLocalPort_busy (identity "nodePort for ns1/svcA" "" 30080 "TCP") (os w)
          = (inr "bind: address already in use", 0%nat)) as Hos by reflexivity.
  split; [exact Hmat|]. split; [exact Habsent|]. split; [exact Hos|].
  exact (open_refused_by_os fake.OpenLocalPort_busy fake.ParseIP
           "nodePort for ns1/svcA" "" 30080 "TCP" fake.svcA w
           "bind: address already in use" 0%nat Hmat Habsent Hos).
Defined.

Lemma open_error_keeps_watcher_witness :
  let w := (open fake.OpenLocalPort fake.ParseIP "nodePort for ns1/svcA" "" 30080 "TCP"
              fake.svcA (initial fake.nodeAddrs 0%nat)).2 in
  (open fake.OpenLocalPort fake.ParseIP "nodePort for ns1/svcA" "" 30080 "TCP"
     fake.svcA w).1 = Some (ErrOpenAgain "ns1" "svcA" 30080)
  ∧ watcher (open fake.OpenLocalPort fake.ParseIP "nodePort for ns1/svcA" "" 30080 "TCP"
               fake.svcA w).2 = watcher w.
Proof.
  intros w.
  assert ((open fake.OpenLocalPort fake.ParseIP "nodePort for ns1/svcA" "" 30080 "TCP"
             fake.svcA w).1 = Some (ErrOpenAgain "ns1" "svcA" 30080)) as Herr.
  { vm_compute. reflexivity. }
  split; [exact Herr|].
  exact (open_error_keeps_watcher fake.OpenLocalPort fake.ParseIP
           "nodePort for ns1/svcA" "" 30080 "TCP" fake.svcA w _ Herr).
Defined.

Lemma close_error_keeps_watcher_witness :
  let w := initial (OS := nat) (Closeable := nat) fake.nodeAddrs 0%nat in
  (close fake.CloseSocket fake.ParseIP "nodePort for ns1/svcA" "" 30080 "TCP"
     fake.svcA w).1 = Some (ErrNeverOpened "ns1" "svcA" 30080)
  ∧ watcher (close fake.CloseSocket fake.ParseIP "nodePort for ns1/svcA" "" 30080 "TCP"
               fake.svcA w).2 = watcher w.
Proof.
  intros w.
  assert ((close fake.CloseSocket fake.ParseIP "nodePort for ns1/svcA" "" 30080 "TCP"
             fake.svcA w).1 = Some (ErrNeverOpened "ns1" "svcA" 30080)) as Herr.
  { vm_compute. reflexivity. }
  split; [exact Herr|].
  exact (close_error_keeps_watcher fake.CloseSocket fake.ParseIP
           "nodePort for ns1/svcA" "" 30080 "TCP" fake.svcA w _ Herr).
Defined.

Lemma reachable_entries_are_local_tcp_udp_witness :
  let w := (open fake.OpenLocalPort fake.ParseIP "externalIP for ns1/svcA" "10.0.0.1" 8080
              "TCP" fake.svcA_external (initial fake.nodeAddrs 0%nat)).2 in
  let lp := identity "externalIP for ns1/svcA" "10.0.0.1" 8080 "TCP" in
  reachable fake.OpenLocalPort fake.CloseSocket fake.ParseIP w
  ∧ portsMap (watcher w) !! lp = Some 0%nat
  ∧ (utilnet.Protocol lp = kapi.ProtocolTCP ∨ utilnet.Protocol lp = kapi.ProtocolUDP)
  ∧ utilnet.IPFamily lp = ""
  ∧ passesFilter (watcher w) (utilnet.IP lp).
Proof.
  intros w lp.
  assert (reachable fake.OpenLocalPort fake.CloseSocket fake.ParseIP w) as Hreach.
  { apply reach_open, reach_initial. }
  assert (portsMap (watcher w) !! lp = Some 0%nat) as Hheld.
  { vm_compute. reflexivity. }
  split; [exact Hreach|]. split; [exact Hheld|].
  exact (reachable_entries_are_local_tcp_udp fake.OpenLocalPort fake.CloseSocket
           fake.ParseIP w lp 0%nat Hreach Hheld).
Defined.

Lemma close_twice_fails_witness :
  let w := (open fake.OpenLocalPort fake.ParseIP "nodePort for ns1/svcA" "" 30080 "TCP"
              fake.svcA (initial fake.nodeAddrs 0%nat)).2 in
  materialised fake.ParseIP (watcher w) "" "TCP"
  ∧ portsMap (watcher w) !! identity "nodePort for ns1/svcA" "" 30080 "TCP" = Some 0%nat
  ∧ fake.CloseSocket 0%nat (os w) = (None, 1%nat)
  ∧ ∃ w1, close fake.CloseSocket fake.ParseIP "nodePort for ns1/svcA" "" 30080 "TCP"
            fake.svcA w = (None, w1)
          ∧ close fake.CloseSocket fake.ParseIP "nodePort for ns1/svcA" "" 30080 "TCP"
              fake.svcA w1 = (Some (ErrNeverOpened "ns1" "svcA" 30080), w1).
Proof.
  intros w.
  assert (materialised fake.ParseIP (watcher w) "" "TCP") as Hmat.
  { split; left; reflexivity. }
  assert (portsMap (watcher w) !! identity "nodePort for ns1/svcA" "" 30080 "TCP"
          = Some 0%nat) as Hheld.
  { vm_compute. reflexivity. }
  assert (fake.CloseSocket 0%nat (os w) = (None, 1%nat)) as Hos.
  { vm_compute. reflexivity. }
  split; [exact Hmat|]. split; [exact Hheld|]. split; [exact Hos|].
  exact (close_twice_fails fake.CloseSocket fake.ParseIP "nodePort for ns1/svcA" ""
           30080 "TCP" fake.svcA w 0%nat 1%nat Hmat Hheld Hos).
Defined.

Lemma failed_close_blocks_open_witness :
  let w := (open fake.OpenLocalPort fake.ParseIP "nodePort for ns1/svcA" "" 30080 "TCP"
              fake.svcA (initial fake.nodeAddrs 0%nat)).2 in
  materialised fake.ParseIP (watcher w) "" "TCP"
  ∧ portsMap (watcher w) !! identity "nodePort for ns1/svcA" "" 30080 "TCP" = Some 0%nat
  ∧ fake.CloseSocket_broken 0%nat (os w) = (Some "close: bad file descriptor", 1%nat)
  ∧ ∃ w1, close fake.CloseSocket_broken fake.ParseIP "nodePort for ns1/svcA" "" 30080
            "TCP" fake.svcA w
          = (Some (ErrClosing "ns1" "svcA" 30080 (ErrOS "close: bad file descriptor")), w1)
          ∧ open fake.OpenLocalPort fake.ParseIP "nodePort for ns1/svcA" "" 30080 "TCP"
              fake.svcA w1 = (Some (ErrOpenAgain "ns1" "svcA" 30080), w1).
Proof.
  intros w.
  assert (materialised fake.ParseIP (watcher w) "" "TCP") as Hmat.
  { split; left; reflexivity. }
  assert (portsMap (watcher w) !! identity "nodePort for ns1/svcA" "" 30080 "TCP"
          = Some 0%nat) as Hheld.
  { vm_compute. reflexivity. }
  assert (fake.CloseSocket_broken 0%nat (os w) = (Some "close: bad file descriptor", 1%nat))
    as Hos.
  { vm_compute. reflexivity. }
  split; [exact Hmat|]. split; [exact Hheld|]. split; [exact Hos|].
  exact (failed_close_blocks_open fake.OpenLocalPort fake.CloseSocket_broken fake.ParseIP
           "nodePort for ns1/svcA" "" 30080 "TCP" fake.svcA w 0%nat
           "close: bad file descriptor" 1%nat Hmat Hheld Hos).
Defined.

Lemma reachable_entry_was_opened_witness :
  let w := (close fake.CloseSocket fake.ParseIP "externalIP for ns1/svcA" "10.0.0.1" 8080
              "TCP" fake.svcA_external
              (open fake.OpenLocalPort fake.ParseIP "nodePort for ns1/svcA" "" 30080 "TCP"
                 fake.svcA (initial fake.nodeAddrs 0%nat)).2).2 in
  reachable fake.OpenLocalPort fake.CloseSocket fake.ParseIP w
  ∧ portsMap (watcher w) !! identity "nodePort for ns1/svcA" "" 30080 "TCP" = Some 0%nat
  ∧ OsOpen (identity "nodePort for ns1/svcA" "" 30080 "TCP") ∈ trace w.
Proof.
  intros w.
  assert (reachable fake.OpenLocalPort fake.CloseSocket fake.ParseIP w) as Hreach.
  { apply reach_close, reach_open, reach_initial. }
  assert (portsMap (watcher w) !! identity "nodePort for ns1/svcA" "" 30080 "TCP"
          = Some 0%nat) as Hheld.
  { vm_compute. reflexivity. }
  split; [exact Hreach|]. split; [exact Hheld|].
  exact (reachable_entry_was_opened fake.OpenLocalPort fake.CloseSocket fake.ParseIP w
           _ 0%nat Hreach Hheld).
Defined.

Lemma handleService_nothing_to_claim_witness :
  let w := initial (OS := nat) (Closeable := nat) fake.nodeAddrs 0%nat in
  (elems (kapi.Ports (kapi.Spec fake.svcA_clusterIP)) = []
   ∨ (util.ServiceTypeHasNodePort fake.svcA_clusterIP = false
      ∧ elems (kapi.ExternalIPs (kapi.Spec fake.svcA_clusterIP)) = []))
  ∧ handleService fake.svcA_clusterIP (open fake.OpenLocalPort fake.ParseIP) w = ([], w).
Proof.
  intros w.
  assert (elems (kapi.Ports (kapi.Spec fake.svcA_clusterIP)) = []
          ∨ (util.ServiceTypeHasNodePort fake.svcA_clusterIP = false
             ∧ elems (kapi.ExternalIPs (kapi.Spec fake.svcA_clusterIP)) = [])) as Hnone.
  { right. split; reflexivity. }
  split; [exact Hnone|].
  exact (handleService_nothing_to_claim fake.svcA_clusterIP
           (open fake.OpenLocalPort fake.ParseIP) w Hnone).
Defined.

Lemma added_claims_are_held_witness :
  let portHandler :=
    portClaimWatcher_handler fake.OpenLocalPort fake.CloseSocket fake.ParseIP in
  let w := initial fake.nodeAddrs 0%nat in
  let c := {| description := "externalIP for ns1/svcA"; address := "10.0.0.1";
              port := 8080; protocol := "TCP";
              owner := {| refNamespace := "ns1"; refName := "svcA" |} |} in
  (∀ lp o, ∃ s o', fake.OpenLocalPort lp o = (inl s, o'))
  ∧ c ∈ Extractor fake.svcA_external
  ∧ validClaim c
  ∧ claimMaterialised fake.ParseIP (watcher w) c
  ∧ is_Some (portsMap (watcher (addServicePortClaim portHandler fake.svcA_external w).2)
               !! claimIdentity c).
Proof.
  intros portHandler w c.
  assert (∀ lp o, ∃ s o', fake.OpenLocalPort lp o = (inl s, o')) as Hos.
  { intros lp o. exists o, (S o). reflexivity. }
  assert (c ∈ Extractor fake.svcA_external) as Hc.
  { apply list_elem_of_In. vm_compute. right. left. reflexivity. }
  assert (validClaim c) as Hvalid.
  { vm_compute. reflexivity. }
  assert (claimMaterialised fake.ParseIP (watcher w) c) as Hmat.
  { split; [left; reflexivity|]. right. split.
    - exists ([10; 0; 0; 1], [255; 255; 255; 0])%Z. vm_compute. reflexivity.
    - exists utilnet.IsIPv4. reflexivity. }
  split; [exact Hos|]. split; [exact Hc|]. split; [exact Hvalid|]. split; [exact Hmat|].
  exact (added_claims_are_held fake.OpenLocalPort fake.CloseSocket fake.ParseIP
           fake.svcA_external w c Hos Hc Hvalid Hmat).
Defined.

Lemma add_then_delete_restores_watcher_witness :
  let portHandler :=
    portClaimWatcher_handler fake.OpenLocalPort fake.CloseSocket fake.ParseIP in
  let w := initial fake.nodeAddrs 0%nat in
  (∀ s o, ∃ o', fake.CloseSocket s o = (None, o'))
  ∧ (∀ c, c ∈ Extractor fake.svcA_external →
          portsMap (watcher w) !! claimIdentity c = None)
  ∧ watcher (deleteServicePortClaim portHandler fake.svcA_external
               (addServicePortClaim portHandler fake.svcA_external w).2).2
    = watcher w.
Proof.
  intros portHandler w.
  assert (∀ s o, ∃ o', fake.CloseSocket s o = (None, o')) as Hos.
  { intros s o. exists o. reflexivity. }
  assert (∀ c, c ∈ Extractor fake.svcA_external →
               portsMap (watcher w) !! claimIdentity c = None) as Habsent.
  { intros c _. apply lookup_empty. }
  split; [exact Hos|]. split; [exact Habsent|].
  exact (add_then_delete_restores_watcher fake.OpenLocalPort fake.CloseSocket fake.ParseIP
           fake.svcA_external w Hos Habsent).
Defined.

Lemma delete_of_unheld_service_changes_nothing_witness :
  let portHandler :=
    portClaimWatcher_handler fake.OpenLocalPort fake.CloseSocket fake.ParseIP in
  let w := initial fake.nodeAddrs 0%nat in
  (∀ c, c ∈ Extractor fake.svcA → portsMap (watcher w) !! claimIdentity c = None)
  ∧ (deleteServicePortClaim portHandler fake.svcA w).2 = w.
Proof.
  intros portHandler w.
  assert (∀ c, c ∈ Extractor fake.svcA →
               portsMap (watcher w) !! claimIdentity c = None) as Habsent.
  { intros c _. apply lookup_empty. }
  split; [exact Habsent|].
  exact (delete_of_unheld_service_changes_nothing fake.OpenLocalPort fake.CloseSocket
           fake.ParseIP fake.svcA w Habsent).
Defined.

Lemma add_of_held_service_opens_nothing_witness :
  let portHandler :=
    portClaimWatcher_handler fake.OpenLocalPort fake.CloseSocket fake.ParseIP in
  let w := (addServicePortClaim portHandler fake.svcA (initial fake.nodeAddrs 0%nat)).2 in
  (∀ c, c ∈ Extractor fake.svcA → validClaim c →
        claimMaterialised fake.ParseIP (watcher w) c →
        is_Some (portsMap (watcher w) !! claimIdentity c))
  ∧ watcher (addServicePortClaim portHandler fake.svcA w).2 = watcher w
  ∧ os (addServicePortClaim portHandler fake.svcA w).2 = os w.
Proof.
  intros portHandler w.
  assert (∀ c, c ∈ Extractor fake.svcA → validClaim c →
               claimMaterialised fake.ParseIP (watcher w) c →
               is_Some (portsMap (watcher w) !! claimIdentity c)) as Hheld.
  { intros c Hc _ _. apply list_elem_of_In in Hc. vm_compute in Hc.
    destruct Hc as [<- | []]. exists 0%nat. vm_compute. reflexivity. }
  split; [exact Hheld|].
  exact (add_of_held_service_opens_nothing fake.OpenLocalPort fake.CloseSocket fake.ParseIP
           fake.svcA w Hheld).
Defined.

Lemma handleEvents_reachable_witness :
  let portHandler :=
    portClaimWatcher_handler fake.OpenLocalPort fake.CloseSocket fake.ParseIP in
  let w := initial fake.nodeAddrs 0%nat in
  let evs := [Added fake.svcA; Updated fake.svcA fake.svcA_external;
              Deleted fake.svcA_external] in
  reachable fake.OpenLocalPort fake.CloseSocket fake.ParseIP w
  ∧ reachable fake.OpenLocalPort fake.CloseSocket fake.ParseIP
      (handleEvents portHandler evs w).2.
Proof.
  intros portHandler w evs.
  assert (reachable fake.OpenLocalPort fake.CloseSocket fake.ParseIP w) as Hreach.
  { apply reach_initial. }
  split; [exact Hreach|].
  exact (handleEvents_reachable fake.OpenLocalPort fake.CloseSocket fake.ParseIP evs w
           Hreach).
Defined.

Lemma port_names_distinguish_descriptions_witness :
  "http" ≠ "https"
  ∧ getDescription "http" fake.svcA true ≠ getDescription "https" fake.svcA true.
Proof.
  assert ("http" ≠ "https") as Hne by discriminate.
  split; [exact Hne|].
  exact (port_names_distinguish_descriptions "http" "https" fake.svcA true Hne).
Defined.
